(** * spectro-coherence: the C-Index core ([spectro_coherence/cindex.py])

    A shallow embedding of the four functions of [cindex.py]:
    [calculate_c_index], [c_index_statistics], [detect_anomalies] and
    [coherence_quality_score].

    The Python code computes on [numpy] arrays of IEEE binary64 numbers.  The
    embedding is written once, over an interface [Arith] of the arithmetic the
    code uses, and is read at two instances:

    - [binary64]: the kernel's primitive floats, which are IEEE binary64 with
      round-to-nearest-even, so that a run of the code on a concrete input is
      evaluated bit for bit;
    - [exact]: the real numbers extended with [+oo], [-oo] and [NaN], the
      number model of the specification ("real numbers that may contain
      not-a-number markers"), in which nothing is rounded and nothing
      overflows.

    [numpy]'s reductions ([np.sum], and through it [np.mean], [np.std] and the
    dot products of [np.corrcoef]) add their operands in an order of their own
    (pairwise, in blocks).  Here a reduction is a left fold.  At [exact] the
    order does not matter; at [binary64] the embedding is evaluated only on
    inputs on which every order of summation gives the same result.

    Python integers ([window], [step], offsets, lengths) are [Z].  An integer
    that meets a float is converted by rounding; Python raises
    [OverflowError] instead when the integer is beyond the binary64 range
    (about [1.8e308] in absolute value).  That exception is not modelled:
    the embedding is about windows, steps and lengths within the range, and
    the theorem on which calls return states the bound.

    Around the core the file also embeds, from [fits_handler.py],
    [get_snr_estimate], the two loops that build the metadata in
    [load_fits_spectrum] and [SpectrumFITS.target_name], and, from
    [examples/winered_analysis.py], [analyze_single_spectrum] and
    [analyze_multiple_spectra] from the point where the spectra are loaded.
    Reading FITS files and plotting are not modelled. *)

From Stdlib Require Import String Ascii ZArith List Bool Lia Sorted.
From Stdlib Require Import QArith Reals Lra Floats.
Import ListNotations.

Open Scope Z_scope.

(** ** Exceptions

    The two exceptions the modelled code can raise: [range] with a zero step
    and [np.min]/[np.max] of an empty array raise [ValueError]; indexing an
    array with a boolean mask of another length raises [IndexError]. *)

Inductive exn : Type :=
| ValueError
| IndexError.

Inductive result (T : Type) : Type :=
| Ok (v : T)
| Raise (e : exn).

Arguments Ok {T} v.
Arguments Raise {T} e.

Definition bind {T U : Type} (r : result T) (k : T -> result U) : result U :=
  match r with
  | Ok v => k v
  | Raise e => Raise e
  end.

Notation "x <- r ;; k" := (bind r (fun x => k))
  (at level 61, r at next level, right associativity).

(** ** Python built-ins: [range] and slicing *)

(** The number of items of [range(start, stop, step)], for [step <> 0]. *)
Definition range_length (start stop step : Z) : Z :=
  if 0 <? step then
    if start <? stop then (stop - start - 1) / step + 1 else 0
  else
    if stop <? start then (start - stop - 1) / (- step) + 1 else 0.

(** The items of [range(start, stop, step)], for [step <> 0]. *)
Definition range_items (start stop step : Z) : list Z :=
  map (fun k => start + Z.of_nat k * step)
      (seq 0 (Z.to_nat (range_length start stop step))).

(** [range(start, stop, step)]: raises [ValueError] when [step] is zero. *)
Definition py_range (start stop step : Z) : result (list Z) :=
  if step =? 0 then Raise ValueError
  else Ok (range_items start stop step).

(** A slice bound clipped to a sequence of length [n]: a negative bound
    counts from the end. *)
Definition slice_index (n i : Z) : Z :=
  if i <? 0 then Z.max 0 (i + n) else Z.min i n.

(** [l[start:stop]]; a bound left out is [None]. *)
Definition py_slice {T : Type} (l : list T) (start stop : option Z) : list T :=
  let n := Z.of_nat (length l) in
  let a := match start with Some i => slice_index n i | None => 0 end in
  let b := match stop with Some j => slice_index n j | None => n end in
  firstn (Z.to_nat (b - a)) (skipn (Z.to_nat a) l).

(** [len(l)] as a Python integer. *)
Definition len {T : Type} (l : list T) : Z := Z.of_nat (length l).

(** ** The arithmetic of the code *)

Class Arith : Type := {
  num : Type;
  (** an integer converted to a number ([float(n)], or an integer operand of
      a mixed operation) *)
  of_int : Z -> num;
  (** a decimal literal of the source, such as [1e-10] or [0.85] *)
  lit : Q -> num;
  add : num -> num -> num;
  sub : num -> num -> num;
  mul : num -> num -> num;
  div : num -> num -> num;
  sqrt : num -> num;
  abs : num -> num;
  (** [x < y]; false when an operand is NaN *)
  ltb : num -> num -> bool;
  isnan : num -> bool;
  isfinite : num -> bool;
}.

(** *** IEEE binary64 *)

Definition float_of_int (n : Z) : float :=
  SF2Prim (binary_normalize prec emax n 0 false).

#[export] Instance binary64 : Arith := {|
  num := float;
  of_int := float_of_int;
  lit := fun q => PrimFloat.div (float_of_int (Qnum q)) (float_of_int (Zpos (Qden q)));
  add := PrimFloat.add;
  sub := PrimFloat.sub;
  mul := PrimFloat.mul;
  div := PrimFloat.div;
  sqrt := PrimFloat.sqrt;
  abs := PrimFloat.abs;
  ltb := PrimFloat.ltb;
  isnan := PrimFloat.is_nan;
  isfinite := PrimFloat.is_finite;
|}.

(** *** Exact arithmetic on the extended reals

    Signed zeros are not told apart: a non-zero number divided by zero is the
    infinity of the sign of the numerator. *)

Inductive xreal : Type :=
| Fin (r : R)
| PInf
| NInf
| NaN.

Definition Rltb (x y : R) : bool := if Rlt_dec x y then true else false.

Definition Reqb (x y : R) : bool := if Req_dec_T x y then true else false.

(** The infinity of the sign of [r], for [r <> 0]. *)
Definition inf_of_sign (r : R) : xreal := if Rltb r 0 then NInf else PInf.

Definition xopp (x : xreal) : xreal :=
  match x with
  | Fin r => Fin (- r)
  | PInf => NInf
  | NInf => PInf
  | NaN => NaN
  end.

Definition xadd (x y : xreal) : xreal :=
  match x, y with
  | NaN, _ | _, NaN => NaN
  | Fin a, Fin b => Fin (a + b)
  | PInf, NInf | NInf, PInf => NaN
  | PInf, _ | _, PInf => PInf
  | NInf, _ | _, NInf => NInf
  end.

Definition xsub (x y : xreal) : xreal := xadd x (xopp y).

Definition xmul (x y : xreal) : xreal :=
  match x, y with
  | NaN, _ | _, NaN => NaN
  | Fin a, Fin b => Fin (a * b)
  | Fin a, PInf | PInf, Fin a => if Reqb a 0 then NaN else inf_of_sign a
  | Fin a, NInf | NInf, Fin a => if Reqb a 0 then NaN else inf_of_sign (- a)
  | PInf, PInf | NInf, NInf => PInf
  | PInf, NInf | NInf, PInf => NInf
  end.

Definition xdiv (x y : xreal) : xreal :=
  match x, y with
  | NaN, _ | _, NaN => NaN
  | Fin a, Fin b =>
      if Reqb b 0 then (if Reqb a 0 then NaN else inf_of_sign a)
      else Fin (a / b)
  | Fin _, PInf | Fin _, NInf => Fin 0
  | PInf, Fin b => if Rltb b 0 then NInf else PInf
  | NInf, Fin b => if Rltb b 0 then PInf else NInf
  | PInf, PInf | PInf, NInf | NInf, PInf | NInf, NInf => NaN
  end.

Definition xsqrt (x : xreal) : xreal :=
  match x with
  | Fin a => if Rltb a 0 then NaN else Fin (R_sqrt.sqrt a)
  | PInf => PInf
  | NInf | NaN => NaN
  end.

Definition xabs (x : xreal) : xreal :=
  match x with
  | Fin a => Fin (Rabs a)
  | PInf | NInf => PInf
  | NaN => NaN
  end.

Definition xltb (x y : xreal) : bool :=
  match x, y with
  | NaN, _ | _, NaN => false
  | Fin a, Fin b => Rltb a b
  | NInf, NInf | PInf, _ | Fin _, NInf => false
  | NInf, _ | Fin _, PInf => true
  end.

Definition xisnan (x : xreal) : bool :=
  match x with NaN => true | _ => false end.

Definition xisfinite (x : xreal) : bool :=
  match x with Fin _ => true | _ => false end.

#[export] Instance exact : Arith := {|
  num := xreal;
  of_int := fun n => Fin (IZR n);
  lit := fun q => Fin (Q2R q);
  add := xadd;
  sub := xsub;
  mul := xmul;
  div := xdiv;
  sqrt := xsqrt;
  abs := xabs;
  ltb := xltb;
  isnan := xisnan;
  isfinite := xisfinite;
|}.

(** ** [numpy] functions used by [cindex.py] *)

Section Program.

Context {A : Arith}.

(** [np.sum(a)] *)
Definition np_sum (a : list num) : num := fold_left add a (of_int 0).

(** [np.mean(a)]: the sum divided by the number of items; the mean of an
    empty array is [0/0], NaN (numpy warns and does not raise). *)
Definition np_mean (a : list num) : num := div (np_sum a) (of_int (len a)).

(** [np.std(a)] with [ddof = 0]: the square root of the mean of the squared
    deviations from the mean. *)
Definition np_std (a : list num) : num :=
  let arrmean := div (np_sum a) (of_int (len a)) in
  let x := map (fun v => sub v arrmean) a in
  let x := map (fun v => mul v v) x in
  sqrt (div (np_sum x) (of_int (Z.max (len a - 0) 0))).

(** [np.diff(a)]: [a[1:] - a[:-1]] *)
Definition np_diff (a : list num) : list num :=
  map (fun p => sub (fst p) (snd p)) (combine (tl a) a).

(** [np.abs(a)] *)
Definition np_abs (a : list num) : list num := map abs a.

(** [np.minimum(x, y)] and [np.maximum(x, y)]: a NaN operand is returned. *)
Definition minimum (x y : num) : num :=
  if isnan x then x else if ltb x y then x else y.

Definition maximum (x y : num) : num :=
  if isnan x then x else if ltb y x then x else y.

(** [np.min(a)] and [np.max(a)]: a reduction without identity, which raises
    [ValueError] on a zero-size array. *)
Definition np_min (a : list num) : result num :=
  match a with
  | [] => Raise ValueError
  | x :: r => Ok (fold_left minimum r x)
  end.

Definition np_max (a : list num) : result num :=
  match a with
  | [] => Raise ValueError
  | x :: r => Ok (fold_left maximum r x)
  end.

(** [np.clip(x, lo, hi)] on a scalar; NaN is returned as it is. *)
Definition np_clip (x lo hi : num) : num :=
  if isnan x then x else if ltb x lo then lo else if ltb hi x then hi else x.

(** [np.dot(u, v)] of two vectors of one length. *)
Definition np_dot (u v : list num) : num :=
  np_sum (map (fun p => mul (fst p) (snd p)) (combine u v)).

(** [np.corrcoef(x, y)[0, 1]] for two vectors of one length.  [np.cov]
    centres both rows, takes their dot products and scales them by
    [1 / (N - 1)]; [np.corrcoef] divides the covariance by the square roots of
    the two variances, one after the other, and clips the result to
    [[-1, 1]]. *)
Definition np_corrcoef (x y : list num) : num :=
  let fact := if len x - 1 <=? 0 then of_int 0 else of_int (len x - 1) in
  let xc := map (fun v => sub v (np_mean x)) x in
  let yc := map (fun v => sub v (np_mean y)) y in
  let scale := div (of_int 1) fact in
  let c00 := mul (np_dot xc xc) scale in
  let c01 := mul (np_dot xc yc) scale in
  let c11 := mul (np_dot yc yc) scale in
  let stddev0 := sqrt c00 in
  let stddev1 := sqrt c11 in
  np_clip (div (div c01 stddev0) stddev1) (of_int (-1)) (of_int 1).

(** [a[mask]] for a boolean mask: the items where the mask is true, in order.
    numpy compares the length of the mask with the length of the array only
    when the mask is not empty: an empty mask selects nothing, from an array of
    any length, and any other mask of another length raises [IndexError]. *)
Definition mask_index {T : Type} (a : list T) (mask : list bool) : result (list T) :=
  if (length mask =? 0)%nat then Ok []
  else if (length a =? length mask)%nat
  then Ok (map fst (filter snd (combine a mask)))
  else Raise IndexError.

(** ** [calculate_c_index] *)

(** 1. Smoothness: inverse of normalized gradient *)
Definition smoothness (segment : list num) : num :=
  let gradient := np_abs (np_diff segment) in
  div (lit 1.0) (add (lit 1.0) (div (np_mean gradient) (add (np_std segment) (lit 1e-10)))).

(** 2. Stability: inverse coefficient of variation *)
Definition stability (segment : list num) : num :=
  let mean_val := np_mean segment in
  if ltb (lit 1e-10) (abs mean_val) then
    let cv := div (np_std segment) (abs mean_val) in
    div (lit 1.0) (add (lit 1.0) cv)
  else lit 0.5.

(** 3. Consistency: temporal autocorrelation *)
Definition consistency (segment : list num) : num :=
  if 1 <? len segment then
    let autocorr := np_corrcoef (py_slice segment None (Some (-1)))
                                (py_slice segment (Some 1) None) in
    if isfinite autocorr then div (add autocorr (of_int 1)) (of_int 2) else lit 0.5
  else lit 0.5.

(** The two lists the loop appends to. *)
Record scan_state : Type := {
  c_indices : list num;
  positions : list num;
}.

(** The body of the loop [for i in range(0, n - window, step)]; a [continue]
    leaves the state as it is. *)
Definition loop_body (data : list num) (window : Z) (min_valid_fraction : num)
    (st : scan_state) (i : Z) : scan_state :=
  let segment := py_slice data (Some i) (Some (i + window)) in
  if ltb (of_int (len (filter isfinite segment))) (mul (of_int window) min_valid_fraction)
  then st
  else
    let segment := filter isfinite segment in
    if len segment <? 10 then st
    else
      let c_index :=
        div (add (add (smoothness segment) (stability segment)) (consistency segment))
            (lit 3.0) in
      {| c_indices := c_indices st ++ [c_index];
         positions := positions st ++ [add (of_int i) (div (of_int window) (of_int 2))] |}.

Definition calculate_c_index (data : list num) (window step : Z)
    (min_valid_fraction : num) : result (list num * list num) :=
  let n := len data in
  offsets <- py_range 0 (n - window) step ;;
  let st := fold_left (loop_body data window min_valid_fraction) offsets
                      {| c_indices := []; positions := [] |} in
  Ok (positions st, c_indices st).

(** ** [c_index_statistics] *)

(** The dictionary returned by [c_index_statistics], a record of its keys. *)
Record stats : Type := {
  mean : num;
  std : num;
  min : num;
  max : num;
  cv : num;
  anomaly_threshold : num;
  n_values : Z;
}.

(** The entries of the dictionary are evaluated in the order they are
    written, so [np.min] is reached after [np.mean] and [np.std]. *)
Definition c_index_statistics (c_indices : list num) : result stats :=
  let v_mean := np_mean c_indices in
  let v_std := np_std c_indices in
  v_min <- np_min c_indices ;;
  v_max <- np_max c_indices ;;
  let v_cv :=
    if ltb (of_int 0) (np_mean c_indices)
    then div (np_std c_indices) (np_mean c_indices)
    else of_int 0 in
  let v_threshold := sub (np_mean c_indices) (mul (of_int 2) (np_std c_indices)) in
  Ok {| mean := v_mean; std := v_std; min := v_min; max := v_max; cv := v_cv;
        anomaly_threshold := v_threshold; n_values := len c_indices |}.

(** ** [detect_anomalies] *)

Definition detect_anomalies {P : Type} (positions : list P) (c_indices : list num)
    (threshold_sigma : num) : result (list P * list num) :=
  let threshold := sub (np_mean c_indices) (mul threshold_sigma (np_std c_indices)) in
  let anomaly_mask := map (fun c => ltb c threshold) c_indices in
  anomaly_positions <- mask_index positions anomaly_mask ;;
  anomaly_values <- mask_index c_indices anomaly_mask ;;
  Ok (anomaly_positions, anomaly_values).

(** ** [coherence_quality_score] *)

Definition coherence_quality_score (mean_c cv : num) : string :=
  if ltb (lit 0.85) mean_c && ltb cv (lit 0.05) then "Excellent"
  else if ltb (lit 0.80) mean_c && ltb cv (lit 0.10) then "Good"
  else if ltb (lit 0.70) mean_c && ltb cv (lit 0.15) then "Fair"
  else "Poor".

End Program.

(** ** Reading the loop

    The loop of [calculate_c_index] read offset by offset: whether the window
    at offset [i] passes the two checks, and what is appended when it does. *)

Section Scan.

Context {A : Arith}.

Variable data : list num.
Variable window : Z.
Variable min_valid_fraction : num.

(** The finite entries of [data[i:i+window]]. *)
Definition finite_segment (i : Z) : list num :=
  filter isfinite (py_slice data (Some i) (Some (i + window))).

(** The window at offset [i] reaches the end of the loop body: neither
    [continue] is taken. *)
Definition accepted (i : Z) : bool :=
  negb (ltb (of_int (len (finite_segment i))) (mul (of_int window) min_valid_fraction))
  && negb (len (finite_segment i) <? 10).

(** The combined C-Index of a window of finite values. *)
Definition c_index_of (segment : list num) : num :=
  div (add (add (smoothness segment) (stability segment)) (consistency segment))
      (lit 3.0).

(** The position appended for offset [i]: [i + window / 2]. *)
Definition position_of (i : Z) : num :=
  add (of_int i) (div (of_int window) (of_int 2)).

End Scan.

(** ** [fits_handler.py]: [get_snr_estimate]

    The spectrum is read through its two attributes [flux] and [err], one
    dimensional arrays of numbers; [err] may be [None]. *)

Section Snr.

Context {A : Arith}.

(** [np.nan], as the quotient [0/0] of the arithmetic. *)
Definition np_nan : num := div (of_int 0) (of_int 0).

(** An element-wise operation on two one dimensional arrays, with numpy's
    broadcasting: the lengths are equal, or an array of length 1 is
    stretched; any other pair of lengths raises [ValueError]. *)
Definition broadcast2 {T U V : Type} (f : T -> U -> V) (a : list T) (b : list U)
    : result (list V) :=
  if (length a =? length b)%nat
  then Ok (map (fun p => f (fst p) (snd p)) (combine a b))
  else
    match a, b with
    | [x], _ => Ok (map (f x) b)
    | _, [y] => Ok (map (fun x => f x y) a)
    | _, _ => Raise ValueError
    end.

(** The order of [np.sort] and [np.partition]: NaN after every number. *)
Definition nan_last_leb (x y : num) : bool :=
  if isnan y then true else if isnan x then false else negb (ltb y x).

Fixpoint insert_sorted (x : num) (l : list num) : list num :=
  match l with
  | [] => [x]
  | y :: r => if nan_last_leb x y then x :: l else y :: insert_sorted x r
  end.

Definition np_sort (a : list num) : list num := fold_right insert_sorted [] a.

(** [np.median(a)] of a one dimensional array: the middle item of the
    ordered array, or the mean of the two middle items; when the last item of
    the ordered array is NaN, that NaN is returned.  numpy orders only the
    middle and the last positions ([np.partition]); the items it finds there
    are those of the fully ordered array. *)
Definition np_median (a : list num) : num :=
  let part := np_sort a in
  let index := len part / 2 in
  let middle :=
    if len part mod 2 =? 1
    then py_slice part (Some index) (Some (index + 1))
    else py_slice part (Some (index - 1)) (Some (index + 1)) in
  let rout := np_mean middle in
  if (0 <? len part) && isnan (last part np_nan) then last part np_nan else rout.

(** A pixel counts when its flux and its error are finite and its error is
    positive. *)
Definition valid_pixel (f e : num) : bool :=
  isfinite f && isfinite e && ltb (of_int 0) e.

(** [np.any(mask)] *)
Definition np_any (mask : list bool) : bool := existsb (fun b => b) mask.

Definition get_snr_estimate (flux : list num) (err : option (list num)) : result num :=
  match err with
  | None => Ok np_nan
  | Some err =>
      finite_both <- broadcast2 andb (map isfinite flux) (map isfinite err) ;;
      valid <- broadcast2 andb finite_both (map (fun e => ltb (of_int 0) e) err) ;;
      if negb (np_any valid) then Ok np_nan
      else
        flux_valid <- mask_index flux valid ;;
        err_valid <- mask_index err valid ;;
        snr <- broadcast2 div flux_valid err_valid ;;
        Ok (np_median snr)
  end.

End Snr.

(** ** [examples/winered_analysis.py]

    [analyze_single_spectrum] once the spectrum is loaded, with
    [output_dir=None]: the arrays [wave], [flux] and [err] of the spectrum are
    the inputs.  The printing is left out but for the exceptions that its
    arguments [spectrum.wave.min()] and [spectrum.wave.max()] raise. *)

Section Analysis.

Context {A : Arith}.

(** The dictionary that is returned, without its entry ['spectrum']. *)
Record analysis : Type := {
  result_positions : list num;
  result_c_indices : list num;
  result_stats : stats;
  result_snr : num;
  result_quality : string;
}.

Definition analyze_single_spectrum (wave flux : list num) (err : option (list num))
  : result analysis :=
  series <- calculate_c_index flux 200 100 (lit 0.8) ;;
  v_stats <- c_index_statistics (snd series) ;;
  v_snr <- get_snr_estimate flux err ;;
  let v_quality := coherence_quality_score (mean v_stats) (cv v_stats) in
  _ <- np_min wave ;;
  _ <- np_max wave ;;
  Ok {| result_positions := fst series; result_c_indices := snd series;
        result_stats := v_stats; result_snr := v_snr; result_quality := v_quality |}.

End Analysis.

(** ** [fits_handler.py]: metadata and target names

    A Python [dict] with string keys, as the list of its items in insertion
    order: setting a key that is present keeps its place. *)

Section Dict.

Variable V : Type.

Definition dict : Type := list (string * V).

(** [d.get(k)]: [None] when the key is absent. *)
Fixpoint dict_get (d : dict) (k : string) : option V :=
  match d with
  | [] => None
  | (k', v) :: r => if String.eqb k k' then Some v else dict_get r k
  end.

(** [k in d] *)
Definition dict_mem (d : dict) (k : string) : bool :=
  match dict_get d k with Some _ => true | None => false end.

(** [d[k] = v] *)
Fixpoint dict_set (d : dict) (k : string) (v : V) : dict :=
  match d with
  | [] => [(k, v)]
  | (k', v') :: r =>
      if String.eqb k k' then (k', v) :: r else (k', v') :: dict_set r k v
  end.

(** [k in l] for a list of strings *)
Definition in_list (k : string) (l : list string) : bool := existsb (String.eqb k) l.

(** The metadata of [load_fits_spectrum] (the two loops that follow the
    columns), from the items [(key, value)] of the primary header and of the
    extension header, in the order of their cards. *)
Definition header_metadata (primary extension : list (string * V)) : dict :=
  let metadata :=
    fold_left (fun metadata item =>
                 if negb (in_list (fst item) ["COMMENT"; "HISTORY"; ""]%string)
                 then dict_set metadata (fst item) (snd item)
                 else metadata)
              primary [] in
  fold_left (fun metadata item =>
               if negb (in_list (fst item)
                          ["COMMENT"; "HISTORY"; ""; "TTYPE1"; "TTYPE2"; "TTYPE3"]%string)
               then
                 if negb (dict_mem metadata (fst item))
                 then dict_set metadata (fst item) (snd item)
                 else metadata
               else metadata)
            extension metadata.

(** The value of the first item with key [k]. *)
Definition first_value (items : list (string * V)) (k : string) : option V :=
  dict_get items k.

(** The value of the last item with key [k]. *)
Definition last_value (items : list (string * V)) (k : string) : option V :=
  dict_get (rev items) k.

End Dict.

Arguments dict_get {V} d k.
Arguments dict_mem {V} d k.
Arguments dict_set {V} d k v.
Arguments header_metadata {V} primary extension.
Arguments first_value {V} items k.
Arguments last_value {V} items k.

(** [s.replace(old, new)] for a non-empty [old]: the occurrences of [old]
    are found from the left and do not overlap.  [skip] counts the characters
    of an occurrence that are still to be passed over. *)
Fixpoint replace_from (old new : string) (skip : nat) (s : string) : string :=
  match s with
  | EmptyString => EmptyString
  | String c r =>
      match skip with
      | S k => replace_from old new k r
      | O =>
          if String.prefix old s
          then String.append new (replace_from old new (String.length old - 1) r)
          else String c (replace_from old new 0 r)
      end
  end.

Definition str_replace (s old new : string) : string := replace_from old new 0 s.

(** [SpectrumFITS.target_name], from the metadata and the stem of the file
    path ([filepath.stem], which is not modelled). *)
Definition target_name (metadata : dict string) (stem : string) : string :=
  if dict_mem metadata "OBJECT" then
    match dict_get metadata "OBJECT" with
    | Some v => v
    | None => EmptyString
    end
  else
    fold_left (fun name suffix => str_replace name suffix "")
              ["_spectrum"; "_spec"; "_1d"]%string stem.

(** No character of [s] is an underscore. *)
Fixpoint no_underscore (s : string) : bool :=
  match s with
  | EmptyString => true
  | String c r => negb (Ascii.eqb c "_"%char) && no_underscore r
  end.

(** ** [examples/winered_analysis.py]: several spectra

    A loaded spectrum: the attributes of [SpectrumFITS], with the stem of the
    file path in place of the path and the header values as strings. *)

Section Batch.

Context {A : Arith}.

Record SpectrumFITS : Type := {
  filepath_stem : string;
  wave : list num;
  flux : list num;
  err : option (list num);
  metadata : dict string;
}.

(** What the loop of [analyze_multiple_spectra] computes for one spectrum
    (the entry ['spectrum'] of the dictionary is left out). *)
Definition analyze_spectrum (spectrum : SpectrumFITS) : result analysis :=
  series <- calculate_c_index (flux spectrum) 200 100 (lit 0.8) ;;
  v_stats <- c_index_statistics (snd series) ;;
  v_snr <- get_snr_estimate (flux spectrum) (err spectrum) ;;
  Ok {| result_positions := fst series; result_c_indices := snd series;
        result_stats := v_stats; result_snr := v_snr;
        result_quality := coherence_quality_score (mean v_stats) (cv v_stats) |}.

(** [analyze_multiple_spectra] once the spectra are loaded, with
    [output_dir=None]: [Ok None] is the [return None] of an empty list.  The
    summary that is printed is left out: it changes nothing in the result. *)
Definition analyze_multiple_spectra (spectra : list SpectrumFITS)
  : result (option (dict analysis)) :=
  match spectra with
  | [] => Ok None
  | _ :: _ =>
      results <-
        fold_left (fun state spectrum =>
                     results <- state ;;
                     entry <- analyze_spectrum spectrum ;;
                     Ok (dict_set results
                           (target_name (metadata spectrum) (filepath_stem spectrum))
                           entry))
                  spectra (Ok []) ;;
      Ok (Some results)
  end.

End Batch.

(** ** The specification's words

    The definitions below follow the specification, not the code; the
    theorems compare them with the code. *)

(** The quality labels of the specification (section 3). *)
Inductive QualityLabel : Type :=
| Excellent
| Good
| Fair
| Poor.

Definition label_name (q : QualityLabel) : string :=
  match q with
  | Excellent => "Excellent"
  | Good => "Good"
  | Fair => "Fair"
  | Poor => "Poor"
  end.

(** The labels from worst to best. *)
Definition quality_rank (q : QualityLabel) : nat :=
  match q with
  | Poor => 0
  | Fair => 1
  | Good => 2
  | Excellent => 3
  end.

(** The table of section 4.5 on binary64 numbers, read from its first row
    down; the bounds are the binary64 numbers nearest to the decimals of the
    table. *)
Definition classify (mean cv : float) : QualityLabel :=
  if (0x1.b333333333333p-1 <? mean)%float && (cv <? 0x1.999999999999ap-5)%float
  then Excellent
  else if (0x1.999999999999ap-1 <? mean)%float && (cv <? 0x1.999999999999ap-4)%float
  then Good
  else if (0x1.6666666666666p-1 <? mean)%float && (cv <? 0x1.3333333333333p-3)%float
  then Fair
  else Poor.

(** The sum, the arithmetic mean and the population standard deviation of a
    sequence of reals (section 4.3). *)
Definition Rsum (l : list R) : R := fold_right Rplus 0%R l.

Definition arithmetic_mean (l : list R) : R := (Rsum l / INR (length l))%R.

Definition population_std (l : list R) : R :=
  R_sqrt.sqrt
    (Rsum (map (fun x => (x - arithmetic_mean l) * (x - arithmetic_mean l))%R l)
     / INR (length l)).

(** The guard [1e-10] of the code, as a real number. *)
Definition eps : R := Q2R 1e-10.

(** Smoothness (section 4.1):
    [1 / (1 + mean(|successive differences|) / (std(window) + eps))]. *)
Definition successive_differences (l : list R) : list R :=
  map (fun p => (fst p - snd p)%R) (combine (tl l) l).

Definition smoothness_value (l : list R) : R :=
  (1 / (1 + arithmetic_mean (map Rabs (successive_differences l))
            / (population_std l + eps)))%R.

(** Stability (section 4.1): [1 / (1 + cv)] with
    [cv = std(window) / |mean(window)|] when [|mean| > eps], else 0.5. *)
Definition stability_value (l : list R) : R :=
  if Rlt_dec eps (Rabs (arithmetic_mean l))
  then (1 / (1 + population_std l / Rabs (arithmetic_mean l)))%R
  else (1 / 2)%R.

(** [m] is the least, the greatest, item of [l]. *)
Definition is_minimum (m : R) (l : list R) : Prop :=
  In m l /\ forall x, In x l -> (m <= x)%R.

Definition is_maximum (m : R) (l : list R) : Prop :=
  In m l /\ forall x, In x l -> (x <= m)%R.

(** ** Properties *)

(** *** [range] *)

Lemma range_items_nil (start stop step : Z) :
  0 < step -> stop <= start -> range_items start stop step = [].
Proof.
  intros Hs Hle. unfold range_items, range_length.
  destruct (Z.ltb_spec 0 step); [|lia].
  destruct (Z.ltb_spec start stop); [lia|]. reflexivity.
Qed.

Lemma range_length_pos (start stop step : Z) :
  0 < step -> start < stop ->
  0 < range_length start stop step /\
  forall k, 0 <= k ->
    (k < range_length start stop step <-> start + k * step < stop).
Proof.
  intros Hs Hlt. unfold range_length.
  destruct (Z.ltb_spec 0 step); [|lia].
  destruct (Z.ltb_spec start stop); [|lia].
  assert (Hq := Z.div_mod (stop - start - 1) step ltac:(lia)).
  assert (Hr := Z.mod_pos_bound (stop - start - 1) step ltac:(lia)).
  assert (0 <= (stop - start - 1) / step) by (apply Z.div_pos; lia).
  split; [lia|]. intros k Hk. split; intros Hk'; nia.
Qed.

(** For a positive step, [range(start, stop, step)] holds the numbers
    [start + k * step], [k >= 0], that are strictly below [stop]. *)
Lemma in_range_items (start stop step i : Z) :
  0 < step ->
  In i (range_items start stop step) <->
  exists k, 0 <= k /\ i = start + k * step /\ i < stop.
Proof.
  intros Hs. destruct (Z_lt_le_dec start stop) as [Hlt|Hle].
  - unfold range_items. rewrite in_map_iff.
    destruct (range_length_pos start stop step Hs Hlt) as [Hpos Hk]. split.
    + intros (k & <- & Hin). apply in_seq in Hin. exists (Z.of_nat k).
      split; [lia|]. split; [reflexivity|]. apply Hk; lia.
    + intros (k & Hk0 & -> & Hlt'). exists (Z.to_nat k).
      rewrite Z2Nat.id by lia. split; [reflexivity|].
      apply in_seq. apply Hk in Hlt'; lia.
  - rewrite (range_items_nil start stop step Hs Hle). split.
    + intros [].
    + intros (k & Hk0 & -> & Hlt'). exfalso. nia.
Qed.

(** For a positive step the items of a range go strictly up. *)
Lemma range_items_sorted (start stop step : Z) :
  0 < step -> StronglySorted Z.lt (range_items start stop step).
Proof.
  intros Hs. unfold range_items.
  generalize (Z.to_nat (range_length start stop step)) as n.
  generalize 0%nat as b. intros b n. revert b.
  induction n as [|n IH]; intros b; simpl; constructor.
  - apply IH.
  - apply Forall_forall. intros x Hx. apply in_map_iff in Hx.
    destruct Hx as (k & <- & Hk). apply in_seq in Hk. nia.
Qed.

(** *** Slices *)

Lemma in_firstn {T : Type} (n : nat) (l : list T) (x : T) :
  In x (firstn n l) -> In x l.
Proof.
  intros H. rewrite <- (firstn_skipn n l). apply in_or_app. now left.
Qed.

Lemma in_skipn {T : Type} (n : nat) (l : list T) (x : T) :
  In x (skipn n l) -> In x l.
Proof.
  intros H. rewrite <- (firstn_skipn n l). apply in_or_app. now right.
Qed.

(** A slice holds items of the sequence only. *)
Lemma in_py_slice {T : Type} (l : list T) (start stop : option Z) (x : T) :
  In x (py_slice l start stop) -> In x l.
Proof.
  unfold py_slice. intros H. apply in_firstn in H. now apply in_skipn in H.
Qed.

(** *** The loop of [calculate_c_index] *)

Section ScanFacts.

Context {A : Arith}.

Variable data : list num.
Variable window : Z.
Variable min_valid_fraction : num.

Let body := loop_body data window min_valid_fraction.
Let ok := accepted data window min_valid_fraction.

(** One turn of the loop: an accepted offset appends one C-Index and one
    position, any other offset changes nothing. *)
Lemma loop_body_accepted (st : scan_state) (i : Z) :
  body st i =
  if ok i
  then {| c_indices := c_indices st ++ [c_index_of (finite_segment data window i)];
          positions := positions st ++ [position_of window i] |}
  else st.
Proof.
  unfold body, ok, loop_body, accepted, finite_segment, c_index_of, position_of.
  destruct (ltb _ _); simpl; [reflexivity|].
  destruct (_ <? 10); reflexivity.
Qed.

(** A window with fewer than ten finite entries is skipped. *)
Lemma accepted_ten (i : Z) :
  ok i = true -> 10 <= len (finite_segment data window i).
Proof.
  unfold ok, accepted. intros H. apply andb_prop in H as [_ H].
  apply negb_true_iff in H. apply Z.ltb_ge in H. exact H.
Qed.

(** The whole loop. *)
Lemma fold_loop_body (offsets : list Z) (st : scan_state) :
  fold_left body offsets st =
  {| c_indices := c_indices st ++
       map (fun i => c_index_of (finite_segment data window i)) (filter ok offsets);
     positions := positions st ++ map (position_of window) (filter ok offsets) |}.
Proof.
  revert st. induction offsets as [|i offsets IH]; intros st; simpl.
  - rewrite !app_nil_r. now destruct st.
  - rewrite IH, loop_body_accepted. destruct (ok i); simpl; [|reflexivity].
    now rewrite <- !app_assoc.
Qed.

(** [calculate_c_index] returns, for the accepted offsets of the range in
    their order, the positions and the C-Index values. *)
Lemma calculate_c_index_unfold (step : Z) :
  step <> 0 ->
  calculate_c_index data window step min_valid_fraction =
  let visited := filter ok (range_items 0 (len data - window) step) in
  Ok (map (position_of window) visited,
      map (fun i => c_index_of (finite_segment data window i)) visited).
Proof.
  intros Hstep. unfold calculate_c_index, py_range.
  destruct (Z.eqb_spec step 0); [contradiction|]. simpl.
  fold body. rewrite fold_loop_body. reflexivity.
Qed.

End ScanFacts.

(** C1 (what the code does).  The loop runs over [range(0, n - window, step)],
    whose bound is strict: offset [i] is visited when [i + window < n].  On
    data of exactly [window] entries the range is empty, so the window at
    offset 0, for which [0 + window <= n], is never visited and nothing is
    returned. *)
Theorem calculate_c_index_exact_fit_empty (A : Arith) (data : list num)
    (window step : Z) (min_valid_fraction : num) :
  1 <= window -> 1 <= step -> len data = window ->
  py_range 0 (len data - window) step = Ok [] /\
  calculate_c_index data window step min_valid_fraction = Ok ([], []).
Proof.
  intros Hw Hs Hn.
  assert (Hr : range_items 0 (len data - window) step = [])
    by (apply range_items_nil; lia).
  split.
  - unfold py_range. destruct (Z.eqb_spec step 0); [lia|]. now rewrite Hr.
  - rewrite calculate_c_index_unfold by lia. simpl. now rewrite Hr.
Qed.

(** The offsets the loop visits, for [step >= 1]: the multiples of [step]
    with [i + window < n], the bound being strict. *)
Lemma visited_offsets (n window step i : Z) :
  1 <= step ->
  In i (range_items 0 (n - window) step) <->
  exists k, 0 <= k /\ i = k * step /\ i + window < n.
Proof.
  intros Hs. rewrite in_range_items by lia. split.
  - intros (k & Hk & -> & Hlt). exists k. repeat split; lia.
  - intros (k & Hk & -> & Hlt). exists k. repeat split; lia.
Qed.

Lemma calculate_c_index_exact_fit_empty_witness :
  len (repeat (@of_int binary64 1) 10) = 10 /\
  calculate_c_index (A:=binary64) (repeat (of_int 1) 10) 10 5 (lit 0.8) = Ok ([], []).
Proof.
  split; [reflexivity|].
  apply (calculate_c_index_exact_fit_empty binary64 (repeat (of_int 1) 10) 10 5 (lit 0.8));
    [lia | lia | reflexivity].
Defined.

(** *** Short data and data without a finite entry *)

(** No finite entry in the data, no finite entry in a window. *)
Lemma finite_segment_nil (A : Arith) (data : list num) (window i : Z) :
  Forall (fun x => isfinite x = false) data ->
  finite_segment data window i = [].
Proof.
  intros Hall. unfold finite_segment.
  destruct (filter isfinite _) as [|x l] eqn:E; [reflexivity|].
  assert (Hin : In x (filter isfinite (py_slice data (Some i) (Some (i + window)))))
    by (rewrite E; now left).
  apply filter_In in Hin as [Hin Hfin]. apply in_py_slice in Hin.
  rewrite Forall_forall in Hall. rewrite (Hall x Hin) in Hfin. discriminate.
Qed.

Lemma filter_accepted_nonfinite (A : Arith) (data : list num) (window : Z)
    (min_valid_fraction : num) (l : list Z) :
  Forall (fun x => isfinite x = false) data ->
  filter (accepted data window min_valid_fraction) l = [].
Proof.
  intros Hall. induction l as [|i l IH]; simpl; [reflexivity|].
  unfold accepted at 1. rewrite finite_segment_nil by assumption.
  simpl. now rewrite andb_false_r.
Qed.

(** C9.  For [step >= 1], [calculate_c_index] returns an empty series, and
    raises nothing, on data shorter than [window] (no offset is visited) and
    on data whose entries are all non-finite (every window is skipped). *)
Theorem calculate_c_index_short_or_nonfinite (A : Arith) (data : list num)
    (window step : Z) (min_valid_fraction : num) :
  1 <= step ->
  len data < window \/ Forall (fun x => isfinite x = false) data ->
  calculate_c_index data window step min_valid_fraction = Ok ([], []).
Proof.
  intros Hs H. rewrite calculate_c_index_unfold by lia. simpl.
  destruct H as [Hshort|Hall].
  - rewrite range_items_nil by lia. reflexivity.
  - now rewrite filter_accepted_nonfinite.
Qed.

Lemma calculate_c_index_short_or_nonfinite_witness :
  calculate_c_index (A:=binary64) (repeat (of_int 1) 50) 100 50 (lit 0.8) = Ok ([], []) /\
  calculate_c_index (A:=binary64) (repeat PrimFloat.nan 30) 10 5 (lit 0.8) = Ok ([], []).
Proof.
  split.
  - apply (calculate_c_index_short_or_nonfinite binary64
             (repeat (of_int 1) 50) 100 50 (lit 0.8)); [lia|].
    left. reflexivity.
  - apply (calculate_c_index_short_or_nonfinite binary64
             (repeat PrimFloat.nan 30) 10 5 (lit 0.8)); [lia|].
    right. repeat constructor.
Defined.

(** Without a finite entry the series is empty for a negative step as well. *)
Lemma calculate_c_index_nonfinite_any_step (A : Arith) (data : list num)
    (window step : Z) (min_valid_fraction : num) :
  step <> 0 ->
  Forall (fun x => isfinite x = false) data ->
  calculate_c_index data window step min_valid_fraction = Ok ([], []).
Proof.
  intros Hs Hall. rewrite calculate_c_index_unfold by lia. simpl.
  now rewrite filter_accepted_nonfinite.
Qed.

(** C9, as stated, fails when [step] is not positive.  On twenty finite
    entries with window 21, shorter than the window: [step = 0] makes [range]
    raise [ValueError], and [step = -1] visits offset 0, since
    [range(0, -1, -1)] is [[0]]; the slice [data[0:21]] holds the twenty
    entries, which pass both checks, and one sample is returned. *)
Lemma calculate_c_index_short_data_other_steps :
  calculate_c_index (A:=binary64) (repeat (of_int 1) 20) 21 0 (lit 0.8)
  = Raise ValueError /\
  exists ps cs,
    calculate_c_index (A:=binary64) (repeat (of_int 1) 20) 21 (-1) (lit 0.8)
    = Ok (ps, cs) /\
    length cs = 1%nat.
Proof.
  split; [reflexivity|].
  eexists. eexists. split; [vm_compute; reflexivity|]. reflexivity.
Qed.

(** *** [detect_anomalies] *)

(** A mask as long as the array selects the items where it is true. *)
Lemma mask_index_same_length {T : Type} (a : list T) (mask : list bool) :
  length a = length mask ->
  mask_index a mask = Ok (map fst (filter snd (combine a mask))).
Proof.
  intros Hlen. unfold mask_index. rewrite Hlen, Nat.eqb_refl.
  destruct mask as [|b mask]; [|reflexivity].
  destruct a; [reflexivity|discriminate].
Qed.

(** An empty mask selects nothing, whatever the length of the array. *)
Lemma mask_index_empty_mask {T : Type} (a : list T) : mask_index a [] = Ok [].
Proof. reflexivity. Qed.

(** Indexing two arrays of one length by the mask of a test on the second
    selects the pairs that pass the test, in their order. *)
Lemma mask_index_pairs {T U : Type} (f : U -> bool) (a : list T) (c : list U) :
  length a = length c ->
  mask_index a (map f c) = Ok (map fst (filter (fun p => f (snd p)) (combine a c))) /\
  mask_index c (map f c) = Ok (map snd (filter (fun p => f (snd p)) (combine a c))).
Proof.
  intros Hlen.
  rewrite !mask_index_same_length by (rewrite length_map; congruence).
  split; f_equal.
  - revert c Hlen.
    induction a as [|x a IH]; intros [|y c] Hlen; try discriminate; simpl;
      [reflexivity|].
    injection Hlen as Hlen.
    destruct (f y); simpl; rewrite IH by assumption; reflexivity.
  - revert a Hlen.
    induction c as [|y c IH]; intros [|x a] Hlen; try discriminate; simpl;
      [reflexivity|].
    injection Hlen as Hlen.
    destruct (f y); simpl; rewrite (IH a) by assumption; reflexivity.
Qed.

(** C7.  For a non-empty series, [detect_anomalies] takes the mean and the
    standard deviation that [c_index_statistics] computes on the same values,
    sets the threshold to [mean - threshold_sigma * std], and returns the
    samples (position, value) whose value is strictly below it, in the order
    of the series. *)
Theorem detect_anomalies_below_threshold (A : Arith) (P : Type)
    (positions : list P) (c_indices : list num) (threshold_sigma : num) :
  c_indices <> [] ->
  length positions = length c_indices ->
  exists s,
    c_index_statistics c_indices = Ok s /\
    let threshold := sub (mean s) (mul threshold_sigma (std s)) in
    let below := filter (fun sample => ltb (snd sample) threshold)
                        (combine positions c_indices) in
    detect_anomalies positions c_indices threshold_sigma =
    Ok (map fst below, map snd below).
Proof.
  intros Hne Hlen. destruct c_indices as [|c cs]; [contradiction|].
  eexists. split; [reflexivity|]. simpl mean. simpl std.
  unfold detect_anomalies.
  destruct (mask_index_pairs
              (fun v => ltb v (sub (np_mean (c :: cs))
                                   (mul threshold_sigma (np_std (c :: cs)))))
              positions (c :: cs) Hlen) as [Hp Hv].
  cbv zeta. rewrite Hp, Hv. reflexivity.
Qed.

Lemma detect_anomalies_below_threshold_witness :
  exists s,
    c_index_statistics (A:=binary64)
      [lit 0.85; lit 0.87; lit 0.60; lit 0.86; lit 0.88] = Ok s /\
    detect_anomalies (A:=binary64) [10; 20; 30; 40; 50]%Z
      [lit 0.85; lit 0.87; lit 0.60; lit 0.86; lit 0.88] (lit 2.0) =
    Ok (map fst (filter (fun sample => ltb (snd sample)
                           (sub (mean s) (mul (lit 2.0) (std s))))
                   (combine [10; 20; 30; 40; 50]%Z
                      [lit 0.85; lit 0.87; lit 0.60; lit 0.86; lit 0.88])),
        map snd (filter (fun sample => ltb (snd sample)
                           (sub (mean s) (mul (lit 2.0) (std s))))
                   (combine [10; 20; 30; 40; 50]%Z
                      [lit 0.85; lit 0.87; lit 0.60; lit 0.86; lit 0.88]))).
Proof.
  apply (detect_anomalies_below_threshold binary64 Z [10; 20; 30; 40; 50]%Z
           [lit 0.85; lit 0.87; lit 0.60; lit 0.86; lit 0.88] (lit 2.0)).
  - discriminate.
  - reflexivity.
Defined.

(** *** Exact arithmetic: the tests on reals *)

Lemma Rltb_true (x y : R) : (x < y)%R -> Rltb x y = true.
Proof. intros H. unfold Rltb. destruct (Rlt_dec x y); [reflexivity|contradiction]. Qed.

Lemma Rltb_false (x y : R) : (y <= x)%R -> Rltb x y = false.
Proof. intros H. unfold Rltb. destruct (Rlt_dec x y); [lra|reflexivity]. Qed.

Lemma Reqb_true (x y : R) : x = y -> Reqb x y = true.
Proof. intros H. unfold Reqb. destruct (Req_dec_T x y); [reflexivity|contradiction]. Qed.

Lemma Reqb_false (x y : R) : x <> y -> Reqb x y = false.
Proof. intros H. unfold Reqb. destruct (Req_dec_T x y); [contradiction|reflexivity]. Qed.

(** Division of finite numbers by a non-zero finite number. *)
Lemma xdiv_Fin (a b : R) : b <> 0%R -> xdiv (Fin a) (Fin b) = Fin (a / b).
Proof. intros H. unfold xdiv. now rewrite Reqb_false. Qed.

Lemma xdiv_zero_zero : xdiv (Fin 0) (Fin 0) = NaN.
Proof. unfold xdiv. now rewrite !Reqb_true. Qed.

(** The square root of a non-negative finite number. *)
Lemma xsqrt_Fin (a : R) : (0 <= a)%R -> xsqrt (Fin a) = Fin (R_sqrt.sqrt a).
Proof. intros H. unfold xsqrt. now rewrite Rltb_false. Qed.

(** *** [c_index_statistics] on the empty array *)

(** C2 (as the code has it).  On an empty array [c_index_statistics] raises
    [ValueError]: the mean and the standard deviation are computed (and are
    NaN), then [np.min] of a zero-size array raises, and no record is
    returned. *)
Theorem c_index_statistics_empty_raises (A : Arith) :
  c_index_statistics (A:=A) [] = Raise ValueError.
Proof. unfold c_index_statistics, np_min. reflexivity. Qed.

(** C2, as stated, fails: no record is returned for an empty array. *)
Lemma c_index_statistics_empty_no_record :
  ~ exists s, c_index_statistics (A:=binary64) [] = Ok s.
Proof. intros [s H]. discriminate H. Qed.

(** Before [np.min] raises, the mean and the standard deviation of the empty
    array have been computed, and are NaN. *)
Lemma np_mean_std_empty :
  isnan (np_mean (A:=binary64) []) = true /\ isnan (np_std (A:=binary64) []) = true /\
  np_mean (A:=exact) [] = NaN /\ np_std (A:=exact) [] = NaN.
Proof.
  repeat split; try (vm_compute; reflexivity).
  - apply xdiv_zero_zero.
  - unfold np_std, np_sum. cbn -[xdiv xsqrt]. now rewrite xdiv_zero_zero.
Qed.

(** *** [coherence_quality_score] on binary64 *)

Lemma Prim2SF_nan (x : float) : is_nan x = true -> Prim2SF x = S754_nan.
Proof.
  unfold is_nan. rewrite FloatAxioms.eqb_spec. unfold SFeqb.
  destruct (Prim2SF x) as [s|s| |s m e]; simpl; try discriminate; try reflexivity.
  - destruct s; discriminate.
  - destruct s; rewrite Z.compare_refl, Pos.compare_cont_refl; discriminate.
Qed.

(** A comparison with NaN is false. *)
Lemma ltb_nan_r (x y : float) : is_nan y = true -> (x <? y)%float = false.
Proof.
  intros H. rewrite ltb_spec, (Prim2SF_nan y H). unfold SFltb.
  now destruct (Prim2SF x).
Qed.

Lemma ltb_nan_l (x y : float) : is_nan x = true -> (x <? y)%float = false.
Proof.
  intros H. rewrite ltb_spec, (Prim2SF_nan x H). reflexivity.
Qed.

(** A number below zero is not above a number above zero. *)
Lemma ltb_neg_pos (x c : float) :
  (x <? 0)%float = true -> (0 <? c)%float = true -> (c <? x)%float = false.
Proof.
  rewrite !ltb_spec. change (Prim2SF 0) with (S754_zero false).
  unfold SFltb.
  destruct (Prim2SF x) as [s|s| |s m e], (Prim2SF c) as [s'|s'| |s' m' e'];
    simpl; try discriminate; try reflexivity;
    destruct s; try discriminate; destruct s'; try discriminate; reflexivity.
Qed.

(** The quality score of the code is the label of the table. *)
Lemma coherence_quality_score_table (mean_c cv : float) :
  coherence_quality_score (A:=binary64) mean_c cv = label_name (classify mean_c cv).
Proof.
  unfold coherence_quality_score, classify. cbn [ltb lit binary64].
  change (float_of_int (Qnum 0.85) / float_of_int (Z.pos (Qden 0.85)))%float
    with 0x1.b333333333333p-1%float.
  change (float_of_int (Qnum 0.05) / float_of_int (Z.pos (Qden 0.05)))%float
    with 0x1.999999999999ap-5%float.
  change (float_of_int (Qnum 0.80) / float_of_int (Z.pos (Qden 0.80)))%float
    with 0x1.999999999999ap-1%float.
  change (float_of_int (Qnum 0.10) / float_of_int (Z.pos (Qden 0.10)))%float
    with 0x1.999999999999ap-4%float.
  change (float_of_int (Qnum 0.70) / float_of_int (Z.pos (Qden 0.70)))%float
    with 0x1.6666666666666p-1%float.
  change (float_of_int (Qnum 0.15) / float_of_int (Z.pos (Qden 0.15)))%float
    with 0x1.3333333333333p-3%float.
  repeat (destruct (_ && _); [reflexivity|]). reflexivity.
Qed.

(** C8 (as the code has it).  On all binary64 inputs
    [coherence_quality_score] returns the label of the first matching row of
    the table: Excellent if mean > 0.85 and cv < 0.05, else Good if
    mean > 0.80 and cv < 0.10, else Fair if mean > 0.70 and cv < 0.15, else
    Poor.  A NaN mean, a NaN cv and a negative mean give Poor. *)
Theorem coherence_quality_score_rule (mean_c cv : float) :
  coherence_quality_score (A:=binary64) mean_c cv = label_name (classify mean_c cv) /\
  (is_nan mean_c = true \/ is_nan cv = true \/ (mean_c <? 0)%float = true ->
   coherence_quality_score (A:=binary64) mean_c cv = "Poor"%string).
Proof.
  split; [apply coherence_quality_score_table|].
  intros H. rewrite coherence_quality_score_table. unfold classify.
  destruct H as [H|[H|H]].
  - rewrite !(ltb_nan_r _ mean_c H). reflexivity.
  - rewrite !(ltb_nan_l cv _ H), !andb_false_r. reflexivity.
  - rewrite !(fun c Hc => ltb_neg_pos mean_c c H Hc) by reflexivity. reflexivity.
Qed.

Lemma coherence_quality_score_rule_witness :
  coherence_quality_score (A:=binary64) PrimFloat.nan (lit 0.03) = "Poor"%string.
Proof.
  apply (proj2 (coherence_quality_score_rule PrimFloat.nan (@lit binary64 0.03))).
  left. reflexivity.
Defined.

(** The four examples of the specification and of [test_coherence_quality_score]. *)
Example coherence_quality_score_examples :
  coherence_quality_score (A:=binary64) (lit 0.90) (lit 0.03) = "Excellent"%string /\
  coherence_quality_score (A:=binary64) (lit 0.85) (lit 0.07) = "Good"%string /\
  coherence_quality_score (A:=binary64) (lit 0.75) (lit 0.12) = "Fair"%string /\
  coherence_quality_score (A:=binary64) (lit 0.65) (lit 0.20) = "Poor"%string.
Proof. repeat split; vm_compute; reflexivity. Qed.

(** C8, as stated, fails: a negative cv passes every bound [cv < c], so a
    negative input need not fall through to Poor. *)
Lemma coherence_quality_score_negative_cv :
  ~ (forall mean_c cv : float,
       (mean_c <? 0)%float = true \/ (cv <? 0)%float = true \/
       is_nan mean_c = true \/ is_nan cv = true ->
       coherence_quality_score (A:=binary64) mean_c cv = "Poor"%string).
Proof.
  intros H. specialize (H (@lit binary64 0.9) (@of_int binary64 (-1))).
  assert (Hex : coherence_quality_score (A:=binary64) (lit 0.9) (of_int (-1))
                = "Excellent"%string) by (vm_compute; reflexivity).
  rewrite Hex in H. discriminate H. right. left. vm_compute. reflexivity.
Qed.

(** *** Runs on binary64 *)


(** C4 on binary64.  The docstring of [calculate_c_index] gives the range
    [[0, 1]] for the C-Index.  On entries [1e308] and [-1e308] in turn, all
    finite, the differences overflow to infinity and so does the variance:
    Smoothness is [1 / (1 + oo / oo)], NaN, and the C-Index of the window is
    NaN, which is not in [[0, 1]].  Consistency is protected against a
    non-finite correlation ([np.isfinite(autocorr)]); Smoothness and
    Stability are not. *)
Lemma overflow_c_index_nan :
  exists ps c,
    calculate_c_index (A:=binary64)
      (concat (repeat [lit 1e308; sub (of_int 0) (lit 1e308)] 6)) 10 5 (lit 0.8)
    = Ok (ps, [c]) /\
    (PrimFloat.leb 0 c && PrimFloat.leb c 1 = false)%float.
Proof.
  eexists. eexists. split; vm_compute; reflexivity.
Qed.

(** C10, as stated, fails on binary64: the mean of three values [0.1] is
    rounded up to [0.10000000000000002], so with [threshold_sigma = 0] every
    value is strictly below the threshold and all three samples are
    returned. *)
Lemma equal_values_all_flagged :
  detect_anomalies (A:=binary64) [1; 2; 3] (repeat (lit 0.1) 3) (lit 0.0)
  = Ok ([1; 2; 3], repeat (lit 0.1) 3).
Proof. vm_compute. reflexivity. Qed.

(** *** Exact arithmetic: the reductions on finite values *)

Open Scope R_scope.

Lemma fold_xadd_Fin (l : list R) (a : R) :
  fold_left xadd (map Fin l) (Fin a) = Fin (a + Rsum l).
Proof.
  revert a. induction l as [|x l IH]; intros a; simpl.
  - f_equal. lra.
  - rewrite IH. f_equal. lra.
Qed.

Lemma np_sum_Fin (l : list R) : np_sum (A:=exact) (map Fin l) = Fin (Rsum l).
Proof.
  unfold np_sum. simpl. rewrite fold_xadd_Fin. f_equal. lra.
Qed.

Lemma len_map_Fin (l : list R) : IZR (len (map Fin l)) = INR (length l).
Proof. unfold len. now rewrite length_map, <- INR_IZR_INZ. Qed.

Lemma INR_length_pos {T : Type} (l : list T) : l <> [] -> 0 < INR (length l).
Proof.
  intros H. destruct l as [|x l]; [contradiction|]. apply lt_0_INR. simpl. lia.
Qed.

(** [np.mean] of finite values is their arithmetic mean. *)
Lemma np_mean_Fin (l : list R) :
  l <> [] -> np_mean (A:=exact) (map Fin l) = Fin (arithmetic_mean l).
Proof.
  intros Hne. unfold np_mean. rewrite np_sum_Fin. cbn [of_int div exact].
  rewrite len_map_Fin, xdiv_Fin; [reflexivity|].
  apply Rgt_not_eq, INR_length_pos, Hne.
Qed.

Lemma Rsum_nonneg (l : list R) : Forall (fun x => 0 <= x) l -> 0 <= Rsum l.
Proof.
  induction 1 as [|x l Hx _ IH]; simpl; lra.
Qed.

Lemma mean_squares_nonneg (l : list R) (m : R) :
  0 <= Rsum (map (fun x => (x - m) * (x - m)) l) / INR (length l).
Proof.
  destruct l as [|y l].
  - simpl. unfold Rdiv. rewrite Rmult_0_l. lra.
  - apply Rmult_le_pos.
    + apply Rsum_nonneg, Forall_map, Forall_forall. intros x _.
      apply Rle_0_sqr.
    + left. apply Rinv_0_lt_compat, INR_length_pos. discriminate.
Qed.

Lemma max_len_0 {T : Type} (l : list T) : Z.max (len l - 0) 0 = len l.
Proof. unfold len. lia. Qed.

(** [np.std] of finite values is their population standard deviation. *)
Lemma np_std_Fin (l : list R) :
  l <> [] -> np_std (A:=exact) (map Fin l) = Fin (population_std l).
Proof.
  intros Hne. unfold np_std. rewrite np_sum_Fin. cbn [of_int div sub mul sqrt exact].
  rewrite len_map_Fin, xdiv_Fin by (apply Rgt_not_eq, INR_length_pos, Hne).
  fold (arithmetic_mean l). rewrite !map_map. cbn [xsub xopp xadd xmul].
  rewrite <- (map_map (fun x => (x + - arithmetic_mean l) * (x + - arithmetic_mean l)) Fin).
  rewrite np_sum_Fin.
  rewrite max_len_0, len_map_Fin, xdiv_Fin by (apply Rgt_not_eq, INR_length_pos, Hne).
  rewrite xsqrt_Fin by apply (mean_squares_nonneg l (arithmetic_mean l)).
  reflexivity.
Qed.

Lemma population_std_nonneg (l : list R) : 0 <= population_std l.
Proof. apply sqrt_pos. Qed.

(** [np.min] and [np.max] of finite values. *)
Lemma fold_minimum_Fin (r : list R) (x : R) :
  exists m, fold_left (minimum (A:=exact)) (map Fin r) (Fin x) = Fin m /\
            is_minimum m (x :: r).
Proof.
  revert x. induction r as [|y r IH]; intros x; simpl.
  - exists x. split; [reflexivity|]. split; [now left|].
    intros z [<-|[]]. lra.
  - unfold minimum at 2. cbn [isnan ltb exact xisnan xltb]. unfold Rltb.
    destruct (Rlt_dec x y) as [Hlt|Hge].
    + destruct (IH x) as (m & Hm & Hin & Hle). exists m. split; [exact Hm|].
      split.
      * destruct Hin as [<-|Hin]; [now left|now right; right].
      * intros z [<-|[<-|Hz]].
        -- apply Hle. now left.
        -- assert (m <= x) by (apply Hle; now left). lra.
        -- apply Hle. now right.
    + destruct (IH y) as (m & Hm & Hin & Hle). exists m. split; [exact Hm|].
      split.
      * now right.
      * intros z [<-|Hz].
        -- assert (m <= y) by (apply Hle; now left). lra.
        -- now apply Hle.
Qed.

Lemma fold_maximum_Fin (r : list R) (x : R) :
  exists m, fold_left (maximum (A:=exact)) (map Fin r) (Fin x) = Fin m /\
            is_maximum m (x :: r).
Proof.
  revert x. induction r as [|y r IH]; intros x; simpl.
  - exists x. split; [reflexivity|]. split; [now left|].
    intros z [<-|[]]. lra.
  - unfold maximum at 2. cbn [isnan ltb exact xisnan xltb]. unfold Rltb.
    destruct (Rlt_dec y x) as [Hlt|Hge].
    + destruct (IH x) as (m & Hm & Hin & Hle). exists m. split; [exact Hm|].
      split.
      * destruct Hin as [<-|Hin]; [now left|now right; right].
      * intros z [<-|[<-|Hz]].
        -- apply Hle. now left.
        -- assert (x <= m) by (apply Hle; now left). lra.
        -- apply Hle. now right.
    + destruct (IH y) as (m & Hm & Hin & Hle). exists m. split; [exact Hm|].
      split.
      * now right.
      * intros z [<-|Hz].
        -- assert (y <= m) by (apply Hle; now left). lra.
        -- now apply Hle.
Qed.

(** C6.  On a non-empty sequence of (finite) values [c_index_statistics]
    returns a record whose mean is the arithmetic mean, whose std is the
    population standard deviation, whose min and max are the least and the
    greatest value, whose cv is std/mean when the mean is positive and 0
    otherwise, whose anomaly threshold is mean - 2 std, and whose n_values is
    the length of the sequence. *)
Theorem c_index_statistics_fields (values : list R) :
  values <> [] ->
  exists s,
    c_index_statistics (A:=exact) (map Fin values) = Ok s /\
    mean s = Fin (arithmetic_mean values) /\
    std s = Fin (population_std values) /\
    (exists m, min s = Fin m /\ is_minimum m values) /\
    (exists m, max s = Fin m /\ is_maximum m values) /\
    (0 < arithmetic_mean values ->
     cv s = Fin (population_std values / arithmetic_mean values)) /\
    (arithmetic_mean values <= 0 -> cv s = Fin 0) /\
    anomaly_threshold s =
      Fin (arithmetic_mean values - 2 * population_std values) /\
    n_values s = Z.of_nat (length values).
Proof.
  intros Hne. unfold c_index_statistics.
  rewrite (np_mean_Fin values Hne), (np_std_Fin values Hne).
  destruct values as [|x r]; [contradiction|].
  destruct (fold_minimum_Fin r x) as (lo & Hlo & Hmin).
  destruct (fold_maximum_Fin r x) as (hi & Hhi & Hmax).
  cbn [map np_min np_max bind]. rewrite Hlo, Hhi.
  eexists. split; [reflexivity|]. cbn [mean std min max cv anomaly_threshold n_values].
  repeat split.
  - exists lo. split; [reflexivity|exact Hmin].
  - exists hi. split; [reflexivity|exact Hmax].
  - intros Hpos. cbn [ltb of_int div exact xltb].
    rewrite Rltb_true by exact Hpos.
    apply xdiv_Fin. lra.
  - intros Hle. cbn [ltb of_int div exact xltb].
    rewrite Rltb_false by exact Hle. reflexivity.
  - unfold len. simpl Datatypes.length. now rewrite length_map.
Qed.

Lemma c_index_statistics_fields_witness :
  exists s, c_index_statistics (A:=exact) (map Fin [1; 2; 3]) = Ok s /\
            n_values s = 3%Z.
Proof.
  destruct (c_index_statistics_fields [1; 2; 3]) as (s & Hs & H).
  - discriminate.
  - exists s. split; [exact Hs|]. apply H.
Defined.

(** *** Constant sequences in exact arithmetic *)

Lemma Rsum_repeat (c : R) (n : nat) : Rsum (repeat c n) = INR n * c.
Proof.
  induction n as [|n IH]; [simpl; lra|].
  rewrite S_INR. cbn [repeat Rsum fold_right]. fold (Rsum (repeat c n)).
  rewrite IH. lra.
Qed.

Lemma arithmetic_mean_repeat (c : R) (n : nat) :
  (0 < n)%nat -> arithmetic_mean (repeat c n) = c.
Proof.
  intros Hn. unfold arithmetic_mean. rewrite Rsum_repeat, repeat_length.
  field. apply Rgt_not_eq, lt_0_INR, Hn.
Qed.

Lemma population_std_repeat (c : R) (n : nat) :
  (0 < n)%nat -> population_std (repeat c n) = 0.
Proof.
  intros Hn. unfold population_std.
  rewrite arithmetic_mean_repeat by exact Hn.
  rewrite map_repeat, Rsum_repeat, repeat_length.
  replace (INR n * ((c - c) * (c - c)) / INR n) with 0.
  - apply sqrt_0.
  - field. apply Rgt_not_eq, lt_0_INR, Hn.
Qed.

Lemma repeat_nonempty {T : Type} (x : T) (n : nat) : (0 < n)%nat -> repeat x n <> [].
Proof. destruct n; [lia|discriminate]. Qed.

Lemma filter_none {T : Type} (f : T -> bool) (l : list T) :
  (forall x, In x l -> f x = false) -> filter f l = [].
Proof.
  intros H. induction l as [|x l IH]; simpl; [reflexivity|].
  rewrite (H x) by now left. apply IH. intros y Hy. apply H. now right.
Qed.

(** C10 (in exact arithmetic).  On a non-empty series whose values are all
    equal the standard deviation is 0, the threshold is the mean, which is
    the common value, and no value is strictly below it: [detect_anomalies]
    returns empty outputs for every [threshold_sigma >= 0]. *)
Theorem detect_anomalies_equal_values (P : Type) (positions : list P)
    (c : R) (n : nat) (threshold_sigma : R) :
  (0 < n)%nat -> length positions = n -> 0 <= threshold_sigma ->
  detect_anomalies (A:=exact) positions (repeat (Fin c) n) (Fin threshold_sigma)
  = Ok ([], []).
Proof.
  intros Hn Hlen Hsigma. unfold detect_anomalies.
  rewrite <- map_repeat.
  rewrite np_mean_Fin, np_std_Fin by now apply repeat_nonempty.
  rewrite arithmetic_mean_repeat, population_std_repeat by exact Hn.
  set (below := fun v : @num exact =>
                  @ltb exact v (@sub exact (Fin c) (@mul exact (Fin threshold_sigma) (Fin 0)))).
  destruct (mask_index_pairs below positions (map Fin (repeat c n))) as [Hp Hv].
  { now rewrite length_map, repeat_length. }
  cbv zeta. fold below. rewrite Hp, Hv. cbn [bind].
  rewrite filter_none; [reflexivity|].
  intros [p v] Hin. apply in_combine_r in Hin. rewrite map_repeat in Hin.
  apply repeat_spec in Hin. subst v.
  unfold below. cbn [snd ltb sub mul exact xsub xmul xopp xadd xltb].
  apply Rltb_false. lra.
Qed.

Lemma detect_anomalies_equal_values_witness :
  detect_anomalies (A:=exact) [1%Z; 2%Z; 3%Z] (repeat (Fin (1 / 10)) 3) (Fin 0)
  = Ok ([], []).
Proof.
  apply (detect_anomalies_equal_values Z [1%Z; 2%Z; 3%Z] (1 / 10) 3 0);
    [lia | reflexivity | lra].
Defined.

(** The series of [test_detect_anomalies], in exact arithmetic: the mean is
    0.812 and the standard deviation is above 0.106, so the 2-sigma threshold
    is below 0.6 and none of the five values is under it, 0.60 included. *)
Lemma detect_anomalies_test_series :
  detect_anomalies (A:=exact) [10; 20; 30; 40; 50]%Z
    (map Fin [85 / 100; 87 / 100; 60 / 100; 86 / 100; 88 / 100]) (Fin 2)
  = Ok ([], []).
Proof.
  set (vs := [85 / 100; 87 / 100; 60 / 100; 86 / 100; 88 / 100]).
  unfold detect_anomalies.
  rewrite np_mean_Fin, np_std_Fin by discriminate.
  assert (Hmean : arithmetic_mean vs = 812 / 1000).
  { unfold arithmetic_mean, vs. simpl. lra. }
  assert (Hstd : 106 / 1000 <= population_std vs).
  { unfold population_std. rewrite Hmean.
    rewrite <- (sqrt_square (106 / 1000)) at 1 by lra.
    apply sqrt_le_1_alt. unfold vs. simpl. lra. }
  set (below := fun v : @num exact =>
                  @ltb exact v (@sub exact (Fin (arithmetic_mean vs))
                                  (@mul exact (Fin 2) (Fin (population_std vs))))).
  destruct (mask_index_pairs below [10; 20; 30; 40; 50]%Z (map Fin vs)) as [Hp Hv];
    [reflexivity|].
  cbv zeta. fold below. rewrite Hp, Hv. cbn [bind].
  rewrite filter_none; [reflexivity|].
  intros [p v] Hin. apply in_combine_r in Hin.
  unfold below. cbn [snd ltb sub mul exact xsub xmul xopp xadd].
  rewrite Hmean. unfold vs in Hin. simpl in Hin.
  destruct Hin as [<-|[<-|[<-|[<-|[<-|[]]]]]]; cbn [xltb]; apply Rltb_false; lra.
Qed.

(** *** Positions *)

Lemma StronglySorted_filter {T : Type} (lt : T -> T -> Prop) (f : T -> bool)
    (l : list T) :
  StronglySorted lt l -> StronglySorted lt (filter f l).
Proof.
  induction 1 as [|x l Hs IH Hx]; simpl; [constructor|].
  destruct (f x); [|exact IH]. constructor; [exact IH|].
  rewrite Forall_forall in *. intros y Hy. apply filter_In in Hy. now apply Hx.
Qed.

Lemma StronglySorted_map {T U : Type} (lt : T -> T -> Prop) (lt' : U -> U -> Prop)
    (g : T -> U) (l : list T) :
  (forall a b, lt a b -> lt' (g a) (g b)) ->
  StronglySorted lt l -> StronglySorted lt' (map g l).
Proof.
  intros Hg. induction 1 as [|x l Hs IH Hx]; simpl; constructor; [exact IH|].
  rewrite Forall_forall in *. intros y Hy. apply in_map_iff in Hy.
  destruct Hy as (a & <- & Ha). now apply Hg, Hx.
Qed.

(** In exact arithmetic the position of offset [i] is the real number
    [i + window / 2]. *)
Lemma position_of_exact (window i : Z) :
  position_of (A:=exact) window i = Fin (IZR i + IZR window / 2).
Proof.
  unfold position_of. cbn [add div of_int exact].
  rewrite xdiv_Fin by lra. reflexivity.
Qed.

(** C5.  For [step >= 1] the positions returned by [calculate_c_index] are
    the midpoints [i + window / 2] (a real number, not rounded) of the
    accepted offsets [i], each next to the C-Index of its window, and they
    are strictly increasing. *)
Theorem positions_increasing_midpoints (data : list xreal) (window step : Z)
    (min_valid_fraction : xreal) :
  (1 <= step)%Z ->
  let offsets := filter (accepted (A:=exact) data window min_valid_fraction)
                        (range_items 0 (len data - window) step) in
  let midpoints := map (fun i => Fin (IZR i + IZR window / 2)) offsets in
  calculate_c_index (A:=exact) data window step min_valid_fraction =
    Ok (midpoints,
        map (fun i => c_index_of (A:=exact) (finite_segment data window i)) offsets) /\
  StronglySorted (fun p q => xltb p q = true) midpoints.
Proof.
  intros Hstep offsets midpoints. split.
  - rewrite calculate_c_index_unfold by lia. cbv zeta. fold offsets.
    f_equal. f_equal. unfold midpoints. apply map_ext. intros i.
    apply position_of_exact.
  - unfold midpoints, offsets.
    apply (StronglySorted_map Z.lt).
    + intros a b Hab. cbn [xltb]. apply Rltb_true.
      apply IZR_lt in Hab. lra.
    + apply StronglySorted_filter, range_items_sorted. lia.
Qed.

Lemma positions_increasing_midpoints_witness :
  StronglySorted (fun p q => xltb p q = true)
    (map (fun i => Fin (IZR i + IZR 10 / 2))
       (filter (accepted (A:=exact) (repeat (Fin 1) 25) 10 (Fin (8 / 10)))
          (range_items 0 (len (repeat (Fin 1) 25) - 10) 5))).
Proof.
  apply (positions_increasing_midpoints (repeat (Fin 1) 25) 10 5 (Fin (8 / 10))).
  lia.
Defined.

(** *** The three components in exact arithmetic *)

Lemma Q2R_one : Q2R 1.0 = 1.
Proof. unfold Q2R. cbn [Qnum Qden]. lra. Qed.

Lemma Q2R_half : Q2R 0.5 = 1 / 2.
Proof. unfold Q2R. cbn [Qnum Qden]. lra. Qed.

Lemma Q2R_three : Q2R 3.0 = 3.
Proof. unfold Q2R. cbn [Qnum Qden]. lra. Qed.

Lemma eps_value : eps = 1 / 10000000000.
Proof.
  unfold eps, Q2R.
  change (Qnum 1e-10) with 1%Z. change (Qden 1e-10) with 10000000000%positive.
  lra.
Qed.

Lemma eps_pos : 0 < eps.
Proof. rewrite eps_value. lra. Qed.

Lemma sub_pairs_Fin (a b : list R) :
  map (fun p => @sub exact (fst p) (snd p)) (combine (map Fin a) (map Fin b)) =
  map Fin (map (fun p => fst p - snd p) (combine a b)).
Proof.
  revert b. induction a as [|x a IH]; intros [|y b]; simpl; try reflexivity.
  now rewrite IH.
Qed.

Lemma tl_map {T U : Type} (f : T -> U) (l : list T) : tl (map f l) = map f (tl l).
Proof. now destruct l. Qed.

Lemma np_diff_Fin (l : list R) :
  np_diff (A:=exact) (map Fin l) = map Fin (successive_differences l).
Proof.
  unfold np_diff, successive_differences.
  rewrite tl_map. apply sub_pairs_Fin.
Qed.

Lemma np_abs_Fin (l : list R) : np_abs (A:=exact) (map Fin l) = map Fin (map Rabs l).
Proof. unfold np_abs. now rewrite !map_map. Qed.

Lemma successive_differences_nonempty (l : list R) :
  (2 <= length l)%nat -> map Rabs (successive_differences l) <> [].
Proof.
  destruct l as [|x [|y l]]; simpl; try lia. discriminate.
Qed.

Lemma arithmetic_mean_nonneg (l : list R) :
  Forall (fun x => 0 <= x) l -> 0 <= arithmetic_mean l.
Proof.
  intros H. unfold arithmetic_mean, Rdiv. apply Rmult_le_pos.
  - now apply Rsum_nonneg.
  - destruct l as [|x l].
    + simpl. rewrite Rinv_0. lra.
    + left. apply Rinv_0_lt_compat, INR_length_pos. discriminate.
Qed.

Lemma mean_abs_differences_nonneg (l : list R) :
  0 <= arithmetic_mean (map Rabs (successive_differences l)).
Proof.
  apply arithmetic_mean_nonneg, Forall_map, Forall_forall.
  intros x _. apply Rabs_pos.
Qed.

(** Smoothness is in (0, 1]. *)
Lemma smoothness_value_range (l : list R) :
  0 < smoothness_value l <= 1.
Proof.
  unfold smoothness_value.
  assert (Hg := mean_abs_differences_nonneg l).
  assert (Hs := population_std_nonneg l). assert (He := eps_pos).
  set (g := arithmetic_mean _) in *. set (sd := population_std l) in *.
  assert (Hq : 0 <= g / (sd + eps)).
  { apply Rmult_le_pos; [exact Hg|]. left. apply Rinv_0_lt_compat. lra. }
  set (q := g / (sd + eps)) in *. split.
  - apply Rdiv_lt_0_compat; lra.
  - apply (Rmult_le_reg_r (1 + q)); [lra|]. field_simplify; lra.
Qed.

Lemma smoothness_Fin (l : list R) :
  (2 <= length l)%nat -> smoothness (A:=exact) (map Fin l) = Fin (smoothness_value l).
Proof.
  intros Hlen. unfold smoothness, smoothness_value.
  assert (Hne : l <> []) by (destruct l; [simpl in Hlen; lia|discriminate]).
  rewrite np_diff_Fin, np_abs_Fin.
  rewrite np_mean_Fin by now apply successive_differences_nonempty.
  rewrite np_std_Fin by exact Hne.
  assert (Hg := mean_abs_differences_nonneg l).
  assert (Hs := population_std_nonneg l). assert (He := eps_pos).
  cbn [lit add div exact xadd]. fold eps. rewrite Q2R_one.
  rewrite xdiv_Fin by lra. cbn [xadd].
  assert (Hq : 0 <= arithmetic_mean (map Rabs (successive_differences l))
                    / (population_std l + eps)).
  { apply Rmult_le_pos; [exact Hg|]. left. apply Rinv_0_lt_compat. lra. }
  rewrite xdiv_Fin by lra. reflexivity.
Qed.

(** Stability is in (0, 1]. *)
Lemma stability_value_range (l : list R) :
  0 < stability_value l <= 1.
Proof.
  unfold stability_value. assert (He := eps_pos).
  assert (Hs := population_std_nonneg l).
  destruct (Rlt_dec eps (Rabs (arithmetic_mean l))) as [Hlt|_]; [|lra].
  set (m := Rabs (arithmetic_mean l)) in *. set (sd := population_std l) in *.
  assert (Hq : 0 <= sd / m).
  { apply Rmult_le_pos; [exact Hs|]. left. apply Rinv_0_lt_compat. lra. }
  set (q := sd / m) in *. split.
  - apply Rdiv_lt_0_compat; lra.
  - apply (Rmult_le_reg_r (1 + q)); [lra|]. field_simplify; lra.
Qed.

Lemma stability_Fin (l : list R) :
  l <> [] -> stability (A:=exact) (map Fin l) = Fin (stability_value l).
Proof.
  intros Hne. unfold stability, stability_value.
  rewrite np_mean_Fin, np_std_Fin by exact Hne.
  assert (He := eps_pos). assert (Hs := population_std_nonneg l).
  cbn [lit abs ltb add div exact xabs xltb]. fold eps. unfold Rltb.
  destruct (Rlt_dec eps (Rabs (arithmetic_mean l))) as [Hlt|_].
  - rewrite Q2R_one. rewrite xdiv_Fin by lra. cbn [xadd].
    assert (Hq : 0 <= population_std l / Rabs (arithmetic_mean l)).
    { apply Rmult_le_pos; [exact Hs|]. left. apply Rinv_0_lt_compat. lra. }
    rewrite xdiv_Fin by lra. reflexivity.
  - now rewrite Q2R_half.
Qed.

(** [np.clip(x, -1, 1)] is NaN or a number of [[-1, 1]], whatever [x] is. *)
Lemma np_clip_range (x : xreal) :
  np_clip (A:=exact) x (Fin (-1)) (Fin 1) = NaN \/
  exists r, np_clip (A:=exact) x (Fin (-1)) (Fin 1) = Fin r /\ -1 <= r <= 1.
Proof.
  unfold np_clip. cbn [isnan ltb exact].
  destruct x as [r| | |]; cbn [xisnan xltb].
  - right. unfold Rltb.
    destruct (Rlt_dec r (-1)); [exists (-1); split; [reflexivity|lra]|].
    destruct (Rlt_dec 1 r); [exists 1; split; [reflexivity|lra]|].
    exists r. split; [reflexivity|lra].
  - right. exists 1. split; [reflexivity|lra].
  - right. exists (-1). split; [reflexivity|lra].
  - now left.
Qed.

(** Consistency is in [[0, 1]], on every window. *)
Lemma consistency_range (segment : list xreal) :
  exists c, consistency (A:=exact) segment = Fin c /\ 0 <= c <= 1.
Proof.
  unfold consistency.
  destruct (1 <? _)%Z.
  - unfold np_corrcoef. cbv zeta. cbn [of_int exact].
    match goal with
    | |- context [np_clip ?x _ _] => destruct (np_clip_range x) as [Hc|(r & Hc & Hr)]
    end; rewrite Hc; cbn [isfinite exact xisfinite lit].
    + exists (1 / 2). rewrite Q2R_half. split; [reflexivity|lra].
    + exists ((r + 1) / 2). cbn [add div exact xadd].
      rewrite xdiv_Fin by lra. split; [reflexivity|lra].
  - exists (1 / 2). cbn [lit exact]. rewrite Q2R_half. split; [reflexivity|lra].
Qed.

(** The finite entries of a sequence are finite numbers. *)
Lemma filter_isfinite_Fin (l : list xreal) :
  exists rs, filter xisfinite l = map Fin rs.
Proof.
  induction l as [|x l (rs & IH)]; [now exists []|].
  destruct x as [r| | |]; cbn [filter xisfinite]; rewrite IH.
  - now exists (r :: rs).
  - now exists rs.
  - now exists rs.
  - now exists rs.
Qed.

(** The C-Index of a window of at least two finite values is in [[0, 1]]. *)
Lemma c_index_of_range (rs : list R) :
  (2 <= length rs)%nat ->
  exists r, c_index_of (A:=exact) (map Fin rs) = Fin r /\ 0 <= r <= 1.
Proof.
  intros Hlen. unfold c_index_of.
  assert (Hne : rs <> []) by (destruct rs; [simpl in Hlen; lia|discriminate]).
  rewrite smoothness_Fin, stability_Fin by assumption.
  destruct (consistency_range (map Fin rs)) as (c & -> & Hc).
  assert (Hs := smoothness_value_range rs). assert (Ht := stability_value_range rs).
  cbn [add div lit exact xadd]. rewrite Q2R_three, xdiv_Fin by lra.
  eexists. split; [reflexivity|]. lra.
Qed.

Lemma finite_segment_Fin (data : list xreal) (window i : Z) :
  exists rs, finite_segment (A:=exact) data window i = map Fin rs.
Proof. apply filter_isfinite_Fin. Qed.

(** C4 in exact arithmetic, where nothing overflows: every value of the
    series returned by [calculate_c_index] is a number of [[0, 1]].
    Smoothness and Stability are in (0, 1], Consistency is in [[0, 1]], and
    the C-Index is their mean. *)
Theorem c_indices_in_unit_interval (data : list xreal) (window step : Z)
    (min_valid_fraction : xreal) :
  step <> 0%Z ->
  exists ps cs,
    calculate_c_index (A:=exact) data window step min_valid_fraction = Ok (ps, cs) /\
    Forall (fun v => exists r, v = Fin r /\ 0 <= r <= 1) cs.
Proof.
  intros Hstep. rewrite calculate_c_index_unfold by exact Hstep. cbv zeta.
  eexists. eexists. split; [reflexivity|].
  apply Forall_map, Forall_forall. intros i Hi.
  apply filter_In in Hi as [_ Hacc]. apply accepted_ten in Hacc.
  destruct (finite_segment_Fin data window i) as (rs & Hrs).
  rewrite Hrs in *. apply c_index_of_range.
  unfold len in Hacc. rewrite length_map in Hacc. lia.
Qed.

Lemma c_indices_in_unit_interval_witness :
  exists ps cs,
    calculate_c_index (A:=exact) (repeat (Fin 1) 25) 10 5 (Fin (8 / 10)) = Ok (ps, cs) /\
    Forall (fun v => exists r, v = Fin r /\ 0 <= r <= 1) cs.
Proof.
  apply (c_indices_in_unit_interval (repeat (Fin 1) 25) 10 5 (Fin (8 / 10))).
  discriminate.
Defined.

(** *** Constant windows in exact arithmetic *)

Lemma all_equal_repeat {T : Type} (x : T) (l : list T) :
  (forall y, In y l -> y = x) -> l = repeat x (length l).
Proof.
  intros H. apply Forall_eq_repeat, Forall_forall. intros y Hy.
  symmetry. now apply H.
Qed.

(** A slice of a constant sequence is a constant sequence. *)
Lemma py_slice_repeat {T : Type} (x : T) (n : nat) (start stop : option Z) :
  py_slice (repeat x n) start stop =
  repeat x (length (py_slice (repeat x n) start stop)).
Proof.
  apply all_equal_repeat. intros y Hy. apply in_py_slice in Hy.
  now apply repeat_spec in Hy.
Qed.

Lemma length_slice_without_last {T : Type} (l : list T) :
  length (py_slice l None (Some (-1)%Z)) = (length l - 1)%nat.
Proof.
  unfold py_slice, slice_index. cbn [Z.ltb Z.compare].
  rewrite length_firstn, length_skipn. lia.
Qed.

Lemma length_slice_without_first {T : Type} (l : list T) :
  length (py_slice l (Some 1%Z) None) = (length l - 1)%nat.
Proof.
  unfold py_slice, slice_index. cbn [Z.ltb Z.compare].
  rewrite length_firstn, length_skipn. lia.
Qed.

(** The finite entries of a window of a constant finite sequence. *)
Lemma finite_segment_repeat (c : R) (n : nat) (window i : Z) :
  exists m, finite_segment (A:=exact) (repeat (Fin c) n) window i = map Fin (repeat c m).
Proof.
  exists (length (finite_segment (A:=exact) (repeat (Fin c) n) window i)).
  rewrite map_repeat. apply all_equal_repeat. intros y Hy.
  unfold finite_segment in Hy. apply filter_In in Hy as [Hy _].
  apply in_py_slice in Hy. now apply repeat_spec in Hy.
Qed.

Lemma combine_repeat {T U : Type} (x : T) (y : U) (n : nat) :
  combine (repeat x n) (repeat y n) = repeat (x, y) n.
Proof. induction n as [|n IH]; simpl; [reflexivity|now rewrite IH]. Qed.

Lemma Rsum_zeros (l : list R) : (forall x, In x l -> x = 0) -> Rsum l = 0.
Proof.
  intros H. induction l as [|x l IH]; simpl; [reflexivity|].
  rewrite (H x) by now left. rewrite IH; [lra|].
  intros y Hy. apply H. now right.
Qed.

(** On a constant window the differences vanish, and Smoothness is 1. *)
Lemma smoothness_value_repeat (c : R) (m : nat) :
  (0 < m)%nat -> smoothness_value (repeat c m) = 1.
Proof.
  intros Hm. unfold smoothness_value.
  assert (Hz : arithmetic_mean (map Rabs (successive_differences (repeat c m))) = 0).
  { unfold arithmetic_mean. rewrite Rsum_zeros; [unfold Rdiv; apply Rmult_0_l|].
    intros x Hx. apply in_map_iff in Hx as (d & <- & Hd).
    unfold successive_differences in Hd. apply in_map_iff in Hd as ([a b] & <- & Hab).
    assert (Ha := in_combine_l _ _ _ _ Hab). assert (Hb := in_combine_r _ _ _ _ Hab).
    apply repeat_spec in Hb. destruct m as [|m]; [lia|]. simpl in Ha.
    apply repeat_spec in Ha. subst. simpl. rewrite Rminus_diag. apply Rabs_R0. }
  rewrite Hz, population_std_repeat by exact Hm.
  assert (He := eps_pos). field. lra.
Qed.

(** On a constant window the deviation vanishes, and Stability is 1 when the
    constant is above the guard in absolute value, 0.5 otherwise. *)
Lemma stability_value_repeat (c : R) (m : nat) :
  (0 < m)%nat ->
  stability_value (repeat c m) = if Rlt_dec eps (Rabs c) then 1 else 1 / 2.
Proof.
  intros Hm. unfold stability_value.
  rewrite arithmetic_mean_repeat, population_std_repeat by exact Hm.
  assert (He := eps_pos).
  destruct (Rlt_dec eps (Rabs c)); [|reflexivity]. field. lra.
Qed.

(** The correlation coefficient of two constant vectors is [0/0], NaN: both
    variances and the covariance are zero. *)
Lemma np_corrcoef_repeat (c : R) (k : nat) :
  (2 <= k)%nat ->
  np_corrcoef (A:=exact) (repeat (Fin c) k) (repeat (Fin c) k) = NaN.
Proof.
  intros Hk. unfold np_corrcoef.
  assert (Hmean : np_mean (A:=exact) (repeat (Fin c) k) = Fin c).
  { rewrite <- map_repeat, np_mean_Fin by (apply repeat_nonempty; lia).
    now rewrite arithmetic_mean_repeat by lia. }
  assert (Hdot : np_dot (A:=exact)
                   (map (fun v => @sub exact v (Fin c)) (repeat (Fin c) k))
                   (map (fun v => @sub exact v (Fin c)) (repeat (Fin c) k)) = Fin 0).
  { unfold np_dot. rewrite !map_repeat, combine_repeat, map_repeat.
    cbn [fst snd sub mul exact xsub xopp xadd xmul].
    rewrite <- map_repeat, np_sum_Fin, Rsum_repeat. f_equal. ring. }
  cbv zeta. rewrite Hmean, Hdot.
  assert (Hfact : (@len (@num exact) (repeat (Fin c) k) - 1 <=? 0)%Z = false).
  { apply Z.leb_gt. unfold len. rewrite repeat_length. lia. }
  rewrite Hfact. cbn [of_int mul div sqrt exact].
  rewrite xdiv_Fin.
  - cbn [xmul]. rewrite Rmult_0_l, xsqrt_Fin, sqrt_0 by lra.
    rewrite xdiv_zero_zero. reflexivity.
  - apply not_0_IZR. unfold len. rewrite repeat_length. lia.
Qed.

(** On a constant window Consistency takes its neutral value 0.5. *)
Lemma consistency_repeat (c : R) (m : nat) :
  (3 <= m)%nat -> consistency (A:=exact) (repeat (Fin c) m) = Fin (1 / 2).
Proof.
  intros Hm. unfold consistency.
  assert (Hlen : (1 <? @len (@num exact) (repeat (Fin c) m))%Z = true).
  { apply Z.ltb_lt. unfold len. rewrite repeat_length. lia. }
  rewrite Hlen.
  rewrite (py_slice_repeat (Fin c) m None), (py_slice_repeat (Fin c) m (Some 1%Z)).
  rewrite length_slice_without_last, length_slice_without_first, repeat_length.
  rewrite np_corrcoef_repeat by lia.
  cbn [isfinite lit exact xisfinite]. now rewrite Q2R_half.
Qed.

(** The C-Index of a constant window. *)
Lemma c_index_of_repeat (c : R) (m : nat) :
  (3 <= m)%nat ->
  c_index_of (A:=exact) (map Fin (repeat c m)) =
  Fin ((1 + (if Rlt_dec eps (Rabs c) then 1 else 1 / 2) + 1 / 2) / 3).
Proof.
  intros Hm. unfold c_index_of.
  rewrite smoothness_Fin by (rewrite repeat_length; lia).
  rewrite stability_Fin by (apply repeat_nonempty; lia).
  rewrite smoothness_value_repeat, stability_value_repeat by lia.
  rewrite map_repeat, consistency_repeat by exact Hm.
  cbn [add div lit exact xadd]. rewrite Q2R_three, xdiv_Fin by lra.
  reflexivity.
Qed.

Lemma Q2R_eight_tenths : Q2R 0.8 = 8 / 10.
Proof. unfold Q2R. cbn [Qnum Qden]. lra. Qed.

(** The C-Index of the accepted windows of a constant finite sequence. *)
Lemma constant_input_values (c : R) (n : nat) (window step : Z)
    (min_valid_fraction : xreal) :
  step <> 0%Z ->
  exists ps cs,
    calculate_c_index (A:=exact) (repeat (Fin c) n) window step min_valid_fraction
    = Ok (ps, cs) /\
    Forall (fun v =>
              v = Fin ((1 + (if Rlt_dec eps (Rabs c) then 1 else 1 / 2) + 1 / 2) / 3)) cs.
Proof.
  intros Hstep. rewrite calculate_c_index_unfold by exact Hstep. cbv zeta.
  eexists. eexists. split; [reflexivity|].
  apply Forall_map, Forall_forall. intros i Hi.
  apply filter_In in Hi as [_ Hacc]. apply accepted_ten in Hacc.
  destruct (finite_segment_repeat c n window i) as (m & Hm).
  rewrite Hm in *. apply c_index_of_repeat.
  unfold len in Hacc. rewrite length_map, repeat_length in Hacc. lia.
Qed.



(** On a constant sequence whose value is at most [1e-10] in absolute value,
    zero for one, Stability is 0.5 and the C-Index of every accepted window
    is 2/3, which is not greater than 0.8. *)
Lemma small_constant_input_c_index (c : R) (n : nat) (window step : Z)
    (min_valid_fraction : xreal) :
  step <> 0%Z -> Rabs c <= 1 / 10000000000 ->
  exists ps cs,
    calculate_c_index (A:=exact) (repeat (Fin c) n) window step min_valid_fraction
    = Ok (ps, cs) /\
    Forall (fun v => v = Fin (2 / 3) /\ ltb (Arith:=exact) (lit 0.8) v = false) cs.
Proof.
  intros Hstep Hc. rewrite <- eps_value in Hc.
  destruct (constant_input_values c n window step min_valid_fraction Hstep)
    as (ps & cs & Hcalc & Hall).
  exists ps, cs. split; [exact Hcalc|].
  apply Forall_forall. intros v Hv. rewrite Forall_forall in Hall.
  rewrite (Hall v Hv). destruct (Rlt_dec eps (Rabs c)) as [Hn|_]; [lra|].
  split; [f_equal; lra|].
  cbn [ltb lit exact xltb]. rewrite Q2R_eight_tenths. apply Rltb_false. lra.
Qed.

(** ** Further properties of [cindex.py] *)

Lemma length_filter_le {T : Type} (f : T -> bool) (l : list T) :
  (length (filter f l) <= length l)%nat.
Proof.
  induction l as [|x l IH]; simpl; [lia|]. destruct (f x); simpl; lia.
Qed.

(** X1.  [calculate_c_index] raises a [ValueError] (from [range]) when
    [step] is 0.  For every other step, the negative ones included, it
    returns two arrays of one length, with at most one sample for each offset
    of the range, as long as the window and the length of the data are within
    [2^1000] in absolute value: the integers that the loop converts to floats
    ([window] and the offsets) are then in the range of binary64, beyond
    which Python raises [OverflowError]. *)
Theorem calculate_c_index_step_zero_or_returns (A : Arith) (data : list num)
    (window step : Z) (min_valid_fraction : num) :
  (step = 0%Z ->
   calculate_c_index data window step min_valid_fraction = Raise ValueError) /\
  (step <> 0%Z -> (Z.abs window <= 2 ^ 1000)%Z -> (len data <= 2 ^ 1000)%Z ->
   exists ps cs,
     calculate_c_index data window step min_valid_fraction = Ok (ps, cs) /\
     length ps = length cs /\
     (length cs <= length (range_items 0 (len data - window) step))%nat).
Proof.
  split.
  - intros ->. reflexivity.
  - intros Hstep _ _. rewrite calculate_c_index_unfold by exact Hstep. cbv zeta.
    eexists. eexists. split; [reflexivity|]. rewrite !length_map. split; [reflexivity|].
    apply length_filter_le.
Qed.

Lemma calculate_c_index_step_zero_or_returns_witness :
  calculate_c_index (A:=binary64) (repeat (of_int 1) 30) 10 0 (lit 0.8)
  = Raise ValueError /\
  exists ps cs,
    calculate_c_index (A:=binary64) (repeat (of_int 1) 30) 10 (-5) (lit 0.8)
    = Ok (ps, cs) /\
    length ps = length cs /\
    (length cs <= length (range_items 0 (len (repeat (@of_int binary64 1) 30) - 10) (-5)))%nat.
Proof.
  destruct (calculate_c_index_step_zero_or_returns binary64
              (repeat (of_int 1) 30) 10 0 (lit 0.8)) as [Hzero _].
  destruct (calculate_c_index_step_zero_or_returns binary64
              (repeat (of_int 1) 30) 10 (-5) (lit 0.8)) as [_ Hother].
  split.
  - apply Hzero. reflexivity.
  - apply Hother.
    + discriminate.
    + vm_compute. discriminate.
    + vm_compute. discriminate.
Defined.

(** X2.  [detect_anomalies] raises (an [IndexError], from the boolean mask)
    exactly when the values are not empty and the positions differ from them
    in length.  On arrays of one length it returns, and so it does on an
    empty array of values with positions of any length, because numpy lets
    an empty mask index every array: the two results are then empty. *)
Theorem detect_anomalies_raises_iff_mask_mismatch (A : Arith) (P : Type)
    (positions : list P) (c_indices : list num) (threshold_sigma : num) :
  (c_indices <> [] -> length positions <> length c_indices ->
   detect_anomalies positions c_indices threshold_sigma = Raise IndexError) /\
  (c_indices = [] \/ length positions = length c_indices ->
   exists ps vs,
     detect_anomalies positions c_indices threshold_sigma = Ok (ps, vs) /\
     length ps = length vs /\ (length vs <= length c_indices)%nat) /\
  (c_indices = [] ->
   detect_anomalies positions c_indices threshold_sigma = Ok ([], [])).
Proof.
  split; [|split].
  - intros Hne Hlen. unfold detect_anomalies, mask_index. rewrite length_map.
    destruct c_indices as [|c c_indices]; [contradiction|].
    cbn [length Nat.eqb]. apply Nat.eqb_neq in Hlen. cbn [length] in Hlen.
    now rewrite Hlen.
  - intros [->|Hlen].
    + exists [], []. repeat split. cbn [length]. lia.
    + unfold detect_anomalies.
      match goal with
      | |- context [map ?f c_indices] =>
          destruct (mask_index_pairs f positions c_indices Hlen) as [Hp Hv]
      end.
      cbv zeta. rewrite Hp, Hv. cbn [bind].
      eexists. eexists. split; [reflexivity|]. rewrite !length_map.
      split; [reflexivity|].
      match goal with
      | |- (length (filter ?g ?l) <= _)%nat => assert (Hle := length_filter_le g l)
      end.
      rewrite length_combine in Hle. lia.
  - intros ->. reflexivity.
Qed.

Lemma detect_anomalies_raises_iff_mask_mismatch_witness :
  detect_anomalies (A:=binary64) [1; 2; 3]%Z [lit 0.9; lit 0.8] (lit 2.0)
  = Raise IndexError /\
  detect_anomalies (A:=binary64) [1; 2; 3]%Z [] (lit 2.0) = Ok ([], []).
Proof.
  destruct (detect_anomalies_raises_iff_mask_mismatch binary64 Z [1; 2; 3]%Z
              [lit 0.9; lit 0.8] (lit 2.0)) as [Hraise _].
  destruct (detect_anomalies_raises_iff_mask_mismatch binary64 Z [1; 2; 3]%Z
              [] (lit 2.0)) as (_ & _ & Hempty).
  split.
  - apply Hraise; discriminate.
  - apply Hempty. reflexivity.
Defined.

(** X5.  On binary64, the samples [detect_anomalies] returns with its default
    [threshold_sigma = 2.0] are the samples strictly below the
    [anomaly_threshold] of the record [c_index_statistics] computes on the
    same values: the two functions, which [visualizer.py] calls side by side,
    agree on the threshold. *)
Theorem default_threshold_agrees (P : Type) (positions : list P)
    (c_indices : list (@num binary64)) :
  c_indices <> [] ->
  length positions = length c_indices ->
  exists s,
    c_index_statistics (A:=binary64) c_indices = Ok s /\
    let below := filter (fun sample => @ltb binary64 (snd sample) (anomaly_threshold s))
                        (combine positions c_indices) in
    detect_anomalies (A:=binary64) positions c_indices (lit 2.0) =
    Ok (map fst below, map snd below).
Proof.
  intros Hne Hlen. destruct c_indices as [|c cs]; [contradiction|].
  eexists. split; [reflexivity|]. cbn [anomaly_threshold].
  unfold detect_anomalies.
  change (@lit binary64 2.0) with (@of_int binary64 2).
  destruct (mask_index_pairs
              (fun v : @num binary64 => @ltb binary64 v
                 (sub (np_mean (c :: cs)) (mul (of_int 2) (np_std (c :: cs)))))
              positions (c :: cs) Hlen) as [Hp Hv].
  cbv zeta. rewrite Hp, Hv. reflexivity.
Qed.

Lemma default_threshold_agrees_witness :
  exists s,
    c_index_statistics (A:=binary64) [lit 0.85; lit 0.87; lit 0.60] = Ok s /\
    detect_anomalies (A:=binary64) [10; 20; 30]%Z [lit 0.85; lit 0.87; lit 0.60] (lit 2.0) =
    Ok (map fst (filter (fun sample => @ltb binary64 (snd sample) (anomaly_threshold s))
                   (combine [10; 20; 30]%Z [lit 0.85; lit 0.87; lit 0.60])),
        map snd (filter (fun sample => @ltb binary64 (snd sample) (anomaly_threshold s))
                   (combine [10; 20; 30]%Z [lit 0.85; lit 0.87; lit 0.60]))).
Proof.
  apply (default_threshold_agrees Z [10; 20; 30]%Z [lit 0.85; lit 0.87; lit 0.60]).
  - discriminate.
  - reflexivity.
Defined.

(** A slice within the bounds of the sequence has the length asked for. *)
Lemma length_py_slice_inside {T : Type} (l : list T) (i w : Z) :
  (0 <= i)%Z -> (0 <= w)%Z -> (i + w <= len l)%Z ->
  length (py_slice l (Some i) (Some (i + w)%Z)) = Z.to_nat w.
Proof.
  intros Hi Hw Hn. unfold py_slice, slice_index. unfold len in Hn.
  destruct (Z.ltb_spec i 0); [lia|]. destruct (Z.ltb_spec (i + w) 0); [lia|].
  rewrite length_firstn, length_skipn. lia.
Qed.

Lemma filter_all {T : Type} (f : T -> bool) (l : list T) :
  (forall x, In x l -> f x = true) -> filter f l = l.
Proof.
  intros H. induction l as [|x l IH]; simpl; [reflexivity|].
  rewrite (H x) by now left. f_equal. apply IH. intros y Hy. apply H. now right.
Qed.

Lemma length_range_items (start stop step : Z) :
  length (range_items start stop step) = Z.to_nat (range_length start stop step).
Proof. unfold range_items. now rewrite length_map, length_seq. Qed.

(** In exact arithmetic a window that lies inside data without a non-finite
    entry is accepted, when [window >= 10] and [min_valid_fraction <= 1]. *)
Lemma finite_data_accepted (values : list R) (window i : Z) (min_valid_fraction : R) :
  (10 <= window)%Z -> min_valid_fraction <= 1 ->
  (0 <= i)%Z -> (i + window <= Z.of_nat (length values))%Z ->
  accepted (A:=exact) (map Fin values) window (Fin min_valid_fraction) i = true.
Proof.
  intros Hw Hf Hi Hn.
  assert (Hseg : finite_segment (A:=exact) (map Fin values) window i
                 = py_slice (map Fin values) (Some i) (Some (i + window)%Z)).
  { unfold finite_segment. apply filter_all. intros x Hx.
    apply in_py_slice in Hx. apply in_map_iff in Hx as (r & <- & _). reflexivity. }
  assert (Hlen : len (finite_segment (A:=exact) (map Fin values) window i) = window).
  { rewrite Hseg. unfold len at 1. rewrite length_py_slice_inside; unfold len;
      rewrite ?length_map; lia. }
  unfold accepted. rewrite Hlen. cbn [ltb of_int mul exact xmul xltb].
  rewrite Rltb_false.
  - destruct (Z.ltb_spec window 10); [lia|reflexivity].
  - assert (0 < IZR window) by (apply IZR_lt; lia). nra.
Qed.

(** X6.  In exact arithmetic, on data without a non-finite entry, with
    [window >= 10], [step >= 1] and [min_valid_fraction <= 1], every visited
    window is accepted: the series has [(n - window - 1) // step + 1] samples
    when [n > window], and none otherwise. *)
Theorem finite_data_window_count (values : list R) (window step : Z)
    (min_valid_fraction : R) :
  (10 <= window)%Z -> (1 <= step)%Z -> min_valid_fraction <= 1 ->
  exists ps cs,
    calculate_c_index (A:=exact) (map Fin values) window step (Fin min_valid_fraction)
    = Ok (ps, cs) /\
    Z.of_nat (length cs) =
      if (Z.of_nat (length values) <=? window)%Z then 0%Z
      else ((Z.of_nat (length values) - window - 1) / step + 1)%Z.
Proof.
  intros Hw Hs Hf. rewrite calculate_c_index_unfold by lia. cbv zeta.
  eexists. eexists. split; [reflexivity|]. rewrite length_map.
  rewrite filter_all.
  - rewrite length_range_items. unfold range_length, len. rewrite length_map.
    destruct (Z.ltb_spec 0 step); [|lia].
    destruct (Z.leb_spec (Z.of_nat (length values)) window);
      destruct (Z.ltb_spec 0 (Z.of_nat (length values) - window)); try lia.
    rewrite Z.sub_0_r. rewrite Z2Nat.id; [reflexivity|].
    assert (0 <= (Z.of_nat (length values) - window - 1) / step)%Z
      by (apply Z.div_pos; lia). lia.
  - intros i Hi. apply in_range_items in Hi; [|lia].
    destruct Hi as (k & Hk & -> & Hlt). unfold len in Hlt. rewrite length_map in Hlt.
    apply finite_data_accepted; [lia|exact Hf|nia|nia].
Qed.

Lemma finite_data_window_count_witness :
  exists ps cs,
    calculate_c_index (A:=exact) (map Fin (repeat 1 1000)) 100 50 (Fin (8 / 10))
    = Ok (ps, cs) /\
    Z.of_nat (length cs) = 18%Z.
Proof.
  apply (finite_data_window_count (repeat 1 1000) 100 50 (8 / 10)); [lia | lia | lra].
Defined.

(** *** The order of binary64 numbers *)

Ltac cmp_cases :=
  repeat match goal with
  | |- context [Pos.compare_cont Eq ?a ?b] =>
      change (Pos.compare_cont Eq a b) with (Pos.compare a b)
  | H : context [Pos.compare_cont Eq ?a ?b] |- _ =>
      change (Pos.compare_cont Eq a b) with (Pos.compare a b) in H
  end;
  repeat match goal with
  | H : context [Z.compare ?a ?b] |- _ => destruct (Z.compare_spec a b)
  | |- context [Z.compare ?a ?b] => destruct (Z.compare_spec a b)
  | H : context [Pos.compare ?a ?b] |- _ => destruct (Pos.compare_spec a b)
  | |- context [Pos.compare ?a ?b] => destruct (Pos.compare_spec a b)
  end; simpl in *; try discriminate; try reflexivity; try lia.

Lemma SFltb_leb_trans (a b c : spec_float) :
  SFltb a b = true -> SFleb b c = true -> SFltb a c = true.
Proof.
  unfold SFltb, SFleb.
  destruct a as [sa|sa| |sa ma ea], b as [sb|sb| |sb mb eb], c as [sc|sc| |sc mc ec];
    simpl; try discriminate; try reflexivity;
    try destruct sa; try destruct sb; try destruct sc; simpl;
    try discriminate; try reflexivity; intros H1 H2; cmp_cases.
Qed.

Lemma SFleb_ltb_trans (a b c : spec_float) :
  SFleb a b = true -> SFltb b c = true -> SFltb a c = true.
Proof.
  unfold SFltb, SFleb.
  destruct a as [sa|sa| |sa ma ea], b as [sb|sb| |sb mb eb], c as [sc|sc| |sc mc ec];
    simpl; try discriminate; try reflexivity;
    try destruct sa; try destruct sb; try destruct sc; simpl;
    try discriminate; try reflexivity; intros H1 H2; cmp_cases.
Qed.

Lemma ltb_leb_trans (a b c : float) :
  (a <? b)%float = true -> (b <=? c)%float = true -> (a <? c)%float = true.
Proof. rewrite !ltb_spec, leb_spec. apply SFltb_leb_trans. Qed.

Lemma leb_ltb_trans (a b c : float) :
  (a <=? b)%float = true -> (b <? c)%float = true -> (a <? c)%float = true.
Proof. rewrite !ltb_spec, leb_spec. apply SFleb_ltb_trans. Qed.

(** A row of the table that holds for a mean and a cv holds for a greater
    mean and a smaller cv. *)
Lemma row_monotone (lo hi m1 cv1 m2 cv2 : float) :
  (m1 <=? m2)%float = true -> (cv2 <=? cv1)%float = true ->
  (lo <? m1)%float && (cv1 <? hi)%float = true ->
  (lo <? m2)%float && (cv2 <? hi)%float = true.
Proof.
  intros Hm Hcv H. apply andb_prop in H as [H1 H2]. apply andb_true_intro. split.
  - exact (ltb_leb_trans lo m1 m2 H1 Hm).
  - exact (leb_ltb_trans cv2 cv1 hi Hcv H2).
Qed.

(** X7.  On binary64 the quality score is monotone: a greater (or equal) mean
    together with a smaller (or equal) cv never gives a worse label, in the
    order Poor < Fair < Good < Excellent. *)
Theorem coherence_quality_score_monotone (m1 cv1 m2 cv2 : float) :
  (m1 <=? m2)%float = true -> (cv2 <=? cv1)%float = true ->
  exists q1 q2,
    coherence_quality_score (A:=binary64) m1 cv1 = label_name q1 /\
    coherence_quality_score (A:=binary64) m2 cv2 = label_name q2 /\
    (quality_rank q1 <= quality_rank q2)%nat.
Proof.
  intros Hm Hcv. exists (classify m1 cv1), (classify m2 cv2).
  rewrite !coherence_quality_score_table. split; [reflexivity|]. split; [reflexivity|].
  unfold classify.
  assert (H1 := row_monotone 0x1.b333333333333p-1 0x1.999999999999ap-5 _ _ _ _ Hm Hcv).
  assert (H2 := row_monotone 0x1.999999999999ap-1 0x1.999999999999ap-4 _ _ _ _ Hm Hcv).
  assert (H3 := row_monotone 0x1.6666666666666p-1 0x1.3333333333333p-3 _ _ _ _ Hm Hcv).
  destruct (_ && _) in H1 |- *; [rewrite H1 by reflexivity; simpl; lia|].
  destruct (_ && _) in H2 |- *.
  { rewrite H2 by reflexivity. destruct (_ && _); simpl; lia. }
  destruct (_ && _) in H3 |- *.
  { rewrite H3 by reflexivity. repeat (destruct (_ && _); simpl; try lia). }
  simpl. lia.
Qed.

Lemma coherence_quality_score_monotone_witness :
  exists q1 q2,
    coherence_quality_score (A:=binary64) (lit 0.75) (lit 0.12) = label_name q1 /\
    coherence_quality_score (A:=binary64) (lit 0.90) (lit 0.03) = label_name q2 /\
    (quality_rank q1 <= quality_rank q2)%nat.
Proof.
  apply (coherence_quality_score_monotone (@lit binary64 0.75) (@lit binary64 0.12)
           (@lit binary64 0.90) (@lit binary64 0.03)); reflexivity.
Defined.

(** A row with tighter bounds implies a row with looser bounds. *)
Lemma row_weaken (lo lo' hi hi' m cv : float) :
  (lo' <=? lo)%float = true -> (hi <=? hi')%float = true ->
  (lo <? m)%float && (cv <? hi)%float = true ->
  (lo' <? m)%float && (cv <? hi')%float = true.
Proof.
  intros Hlo Hhi H. apply andb_prop in H as [H1 H2]. apply andb_true_intro. split.
  - exact (leb_ltb_trans lo' lo m Hlo H1).
  - exact (ltb_leb_trans cv hi hi' H2 Hhi).
Qed.

(** X8.  On binary64 the score is "Poor" exactly when the last row of the
    table fails, that is unless mean > 0.70 and cv < 0.15: the rows are
    nested, so the rows of Excellent and Good never rescue an input that the
    row of Fair rejects. *)
Theorem coherence_quality_score_poor_iff (mean_c cv : float) :
  coherence_quality_score (A:=binary64) mean_c cv = "Poor"%string <->
  ltb (Arith:=binary64) (lit 0.70) mean_c && ltb (Arith:=binary64) cv (lit 0.15) = false.
Proof.
  rewrite coherence_quality_score_table. unfold classify.
  change (@ltb binary64 (lit 0.70) mean_c)
    with (0x1.6666666666666p-1 <? mean_c)%float.
  change (@ltb binary64 cv (lit 0.15)) with (cv <? 0x1.3333333333333p-3)%float.
  assert (H1 := row_weaken 0x1.b333333333333p-1 0x1.6666666666666p-1
                  0x1.999999999999ap-5 0x1.3333333333333p-3 mean_c cv
                  eq_refl eq_refl).
  assert (H2 := row_weaken 0x1.999999999999ap-1 0x1.6666666666666p-1
                  0x1.999999999999ap-4 0x1.3333333333333p-3 mean_c cv
                  eq_refl eq_refl).
  destruct (_ && _) in H1 |- *.
  { rewrite H1 by reflexivity. simpl. split; discriminate. }
  destruct (_ && _) in H2 |- *.
  { rewrite H2 by reflexivity. simpl. split; discriminate. }
  destruct (_ && _); simpl; split; try discriminate; reflexivity.
Qed.

Example get_snr_estimate_runs :
  get_snr_estimate (A:=binary64) [lit 10.0; lit 30.0; lit 20.0; np_nan; lit 5.0]
    (Some [lit 1.0; lit 1.0; lit 1.0; lit 1.0; lit 0.0]) = Ok (lit 20.0) /\
  get_snr_estimate (A:=binary64) [lit 10.0; lit 30.0; lit 20.0; lit 40.0]
    (Some [lit 1.0; lit 1.0; lit 1.0; lit 1.0]) = Ok (lit 25.0).
Proof. split; vm_compute; reflexivity. Qed.

(** ** [get_snr_estimate] *)

Lemma broadcast2_same {T U V : Type} (f : T -> U -> V) (a : list T) (b : list U) :
  length a = length b ->
  broadcast2 f a b = Ok (map (fun p => f (fst p) (snd p)) (combine a b)).
Proof. intros H. unfold broadcast2. now rewrite H, Nat.eqb_refl. Qed.

Lemma combine_map_map {T U T' U' : Type} (g : T -> T') (h : U -> U')
    (a : list T) (b : list U) :
  combine (map g a) (map h b) = map (fun p => (g (fst p), h (snd p))) (combine a b).
Proof.
  revert b. induction a as [|x a IH]; intros [|y b]; simpl; try reflexivity.
  now rewrite IH.
Qed.

Lemma combine_fst_snd {T U : Type} (l : list (T * U)) :
  combine (map fst l) (map snd l) = l.
Proof. induction l as [|[x y] l IH]; simpl; [reflexivity|now rewrite IH]. Qed.

(** The mask of [get_snr_estimate] on arrays of one length. *)
Lemma valid_mask (A : Arith) (flux err : list num) :
  length flux = length err ->
  (finite_both <- broadcast2 andb (map isfinite flux) (map isfinite err) ;;
   broadcast2 andb finite_both (map (fun e => ltb (of_int 0) e) err)) =
  Ok (map (fun p => valid_pixel (fst p) (snd p)) (combine flux err)).
Proof.
  intros H. rewrite broadcast2_same by now rewrite !length_map.
  cbn [bind]. rewrite broadcast2_same
    by now rewrite !length_map, length_combine, !length_map, H, Nat.min_id.
  f_equal. revert err H.
  induction flux as [|f flux IH]; intros [|e err] H; try discriminate;
    simpl; [reflexivity|].
  injection H as H. now rewrite IH.
Qed.

Lemma existsb_map_false {T : Type} (g : T -> bool) (l : list T) :
  (forall x, In x l -> g x = false) -> np_any (map g l) = false.
Proof.
  intros H. unfold np_any. induction l as [|x l IH]; simpl; [reflexivity|].
  rewrite (H x) by now left. apply IH. intros y Hy. apply H. now right.
Qed.

Lemma existsb_map_true {T : Type} (g : T -> bool) (l : list T) (x : T) :
  In x l -> g x = true -> np_any (map g l) = true.
Proof.
  intros Hin Hg. unfold np_any. apply existsb_exists. exists true.
  split; [|reflexivity]. apply in_map_iff. now exists x.
Qed.

(** [np.nan] is NaN in both arithmetics. *)
Lemma np_nan_isnan :
  isnan (np_nan (A:=binary64)) = true /\ np_nan (A:=exact) = NaN.
Proof. split; [reflexivity|apply xdiv_zero_zero]. Qed.

(** X9.  [get_snr_estimate] returns [np.nan], and raises nothing, when the
    spectrum has no error array, and when the flux and the error have one
    length and no pixel is valid (finite flux, finite and positive error):
    errors that are all zero, negative or non-finite give no estimate. *)
Theorem get_snr_estimate_nan (A : Arith) (flux : list num) (err : option (list num)) :
  err = None \/
  (exists e, err = Some e /\ length flux = length e /\
             forall f x, In (f, x) (combine flux e) -> valid_pixel f x = false) ->
  get_snr_estimate flux err = Ok np_nan.
Proof.
  intros [->|(e & -> & Hlen & Hnone)]; [reflexivity|].
  unfold get_snr_estimate.
  assert (Hmask := valid_mask A flux e Hlen).
  destruct (broadcast2 andb (map isfinite flux) (map isfinite e)) as [fb|ex];
    cbn [bind] in *; [|discriminate].
  rewrite Hmask. cbn [bind].
  rewrite existsb_map_false; [reflexivity|].
  intros [f x] Hin. now apply Hnone.
Qed.

Lemma get_snr_estimate_nan_witness :
  get_snr_estimate (A:=binary64) [lit 1.0; lit 2.0] None = Ok np_nan /\
  get_snr_estimate (A:=binary64) [lit 1.0; lit 2.0] (Some [lit 0.0; np_nan]) = Ok np_nan.
Proof.
  split.
  - apply (get_snr_estimate_nan binary64 [lit 1.0; lit 2.0] None). now left.
  - apply (get_snr_estimate_nan binary64 [lit 1.0; lit 2.0] (Some [lit 0.0; np_nan])).
    right. exists [lit 0.0; np_nan]. split; [reflexivity|]. split; [reflexivity|].
    intros f x [H|[H|[]]]; injection H as <- <-; reflexivity.
Defined.

(** Indexing the two arrays by a mask computed on their pairs selects from
    both the pairs that pass. *)
Lemma mask_index_both {T U : Type} (g : T * U -> bool) (a : list T) (b : list U) :
  length a = length b ->
  mask_index a (map g (combine a b)) = Ok (map fst (filter g (combine a b))) /\
  mask_index b (map g (combine a b)) = Ok (map snd (filter g (combine a b))).
Proof.
  intros Hlen.
  rewrite !mask_index_same_length
    by (rewrite length_map, length_combine, <- Hlen, Nat.min_id; reflexivity).
  split; f_equal.
  - revert b Hlen.
    induction a as [|x a IH]; intros [|y b] Hlen; try discriminate; simpl;
      [reflexivity|].
    injection Hlen as Hlen.
    destruct (g (x, y)); simpl; rewrite IH by assumption; reflexivity.
  - revert b Hlen.
    induction a as [|x a IH]; intros [|y b] Hlen; try discriminate; simpl;
      [reflexivity|].
    injection Hlen as Hlen.
    destruct (g (x, y)); simpl; rewrite IH by assumption; reflexivity.
Qed.

(** On arrays of one length with a valid pixel, the estimate is the median of
    the ratios flux/err of the valid pixels, in the order of the arrays. *)
Lemma get_snr_estimate_median (A : Arith) (flux err : list num) :
  length flux = length err ->
  (exists f e, In (f, e) (combine flux err) /\ valid_pixel f e = true) ->
  get_snr_estimate flux (Some err) =
  Ok (np_median (map (fun p => div (fst p) (snd p))
                   (filter (fun p => valid_pixel (fst p) (snd p)) (combine flux err)))).
Proof.
  intros Hlen (f & e & Hin & Hvalid). unfold get_snr_estimate.
  assert (Hmask := valid_mask A flux err Hlen).
  destruct (broadcast2 andb (map isfinite flux) (map isfinite err)) as [fb|ex];
    cbn [bind] in *; [|discriminate].
  rewrite Hmask. cbn [bind].
  rewrite (existsb_map_true (fun p => valid_pixel (fst p) (snd p)) _ (f, e) Hin Hvalid).
  cbn [negb].
  destruct (mask_index_both (fun p => valid_pixel (fst p) (snd p)) flux err Hlen)
    as [Hf He].
  rewrite Hf, He. cbn [bind].
  rewrite broadcast2_same by now rewrite !length_map.
  cbn [bind]. now rewrite combine_fst_snd.
Qed.

(** *** The median in exact arithmetic *)

Lemma insert_sorted_Fin (x : R) (l : list R) :
  exists l', insert_sorted (A:=exact) (Fin x) (map Fin l) = map Fin l' /\
             length l' = S (length l) /\
             forall y, In y l' <-> y = x \/ In y l.
Proof.
  induction l as [|z l (l' & IH & Hlen & Hin)].
  - exists [x]. split; [reflexivity|]. split; [reflexivity|].
    intros y. simpl. intuition.
  - cbn [map insert_sorted]. destruct (@nan_last_leb exact (Fin x) (Fin z)).
    + exists (x :: z :: l). split; [reflexivity|]. split; [reflexivity|].
      intros y. simpl. intuition.
    + exists (z :: l'). split; [cbn [map]; now rewrite IH|].
      split; [simpl; now rewrite Hlen|].
      intros y. simpl. rewrite Hin. intuition.
Qed.

Lemma np_sort_Fin (l : list R) :
  exists l', np_sort (A:=exact) (map Fin l) = map Fin l' /\
             length l' = length l /\
             forall y, In y l' <-> In y l.
Proof.
  induction l as [|x l (l' & IH & Hlen & Hin)].
  - exists []. split; [reflexivity|]. split; [reflexivity|]. intros y. reflexivity.
  - unfold np_sort in *. cbn [map fold_right]. rewrite IH.
    destruct (insert_sorted_Fin x l') as (l'' & Hins & Hlen' & Hin').
    exists l''. split; [exact Hins|]. split; [simpl; lia|].
    intros y. rewrite Hin'. simpl. rewrite Hin. intuition.
Qed.

Lemma py_slice_map {T U : Type} (g : T -> U) (l : list T) (start stop : option Z) :
  py_slice (map g l) start stop = map g (py_slice l start stop).
Proof. unfold py_slice. now rewrite length_map, skipn_map, firstn_map. Qed.

Lemma last_map_Fin (l : list R) (d : @num exact) :
  l <> [] -> exists r, @last (@num exact) (@map R (@num exact) Fin l) d = Fin r.
Proof.
  induction l as [|x l IH]; [contradiction|]. intros _.
  destruct l as [|y l]; [now exists x|].
  apply IH. discriminate.
Qed.

(** The median of finite values is finite and lies between two of them. *)
Lemma np_median_between (l : list R) :
  l <> [] ->
  exists m a b, np_median (A:=exact) (map Fin l) = Fin m /\
                In a l /\ In b l /\ a <= m <= b.
Proof.
  intros Hne. unfold np_median. cbv zeta.
  destruct (np_sort_Fin l) as (l' & -> & Hlen & Hin).
  assert (Hne' : l' <> []) by (destruct l'; [destruct l; [contradiction|discriminate]|discriminate]).
  destruct (last_map_Fin l' (np_nan (A:=exact)) Hne') as (r & Hr).
  match goal with
  | |- context [isnan ?t] => replace t with (Fin r : @num exact) by (symmetry; exact Hr)
  end.
  cbn [isnan exact xisnan]. rewrite andb_false_r.
  assert (Hn : (1 <= len l')%Z) by (unfold len; destruct l'; [contradiction|simpl; lia]).
  match goal with
  | |- context [(?t mod 2)%Z] =>
      replace t with (len l') by (unfold len; now rewrite length_map)
  end.
  rewrite !py_slice_map.
  destruct (Z.eqb_spec (len l' mod 2) 1) as [Hodd|Heven].
  - assert (Hl : length (py_slice l' (Some (len l' / 2)%Z) (Some (len l' / 2 + 1)%Z))
                 = 1%nat).
    { rewrite length_py_slice_inside; [reflexivity| | |];
        assert (H2 := Z.div_mod (len l') 2 ltac:(lia)); lia. }
    destruct (py_slice l' _ _) as [|x [|y t]] eqn:E; try discriminate.
    assert (Hx : In x l).
    { apply Hin. apply (in_py_slice l' (Some (len l' / 2)%Z) (Some (len l' / 2 + 1)%Z)).
      rewrite E. now left. }
    exists x, x, x. rewrite np_mean_Fin by discriminate.
    split; [f_equal; unfold arithmetic_mean; simpl; field|].
    repeat split; try assumption; lra.
  - assert (Hl : length (py_slice l' (Some (len l' / 2 - 1)%Z) (Some (len l' / 2 + 1)%Z))
                 = 2%nat).
    { replace (len l' / 2 + 1)%Z with (len l' / 2 - 1 + 2)%Z by lia.
      rewrite length_py_slice_inside; [reflexivity| | |];
        assert (H2 := Z.div_mod (len l') 2 ltac:(lia));
        assert (H3 := Z.mod_pos_bound (len l') 2 ltac:(lia)); lia. }
    destruct (py_slice l' _ _) as [|x [|y [|z t]]] eqn:E; try discriminate.
    assert (Hx : In x l /\ In y l).
    { split; apply Hin;
        apply (in_py_slice l' (Some (len l' / 2 - 1)%Z) (Some (len l' / 2 + 1)%Z));
        rewrite E; simpl; auto. }
    destruct Hx as [Hx Hy]. rewrite np_mean_Fin by discriminate.
    destruct (Rle_dec x y).
    + exists ((x + y) / 2), x, y. split; [f_equal; unfold arithmetic_mean; simpl; field|].
      repeat split; try assumption; lra.
    + exists ((x + y) / 2), y, x. split; [f_equal; unfold arithmetic_mean; simpl; field|].
      repeat split; try assumption; lra.
Qed.

Lemma Rltb_lt_true (x y : R) : Rltb x y = true -> x < y.
Proof. unfold Rltb. destruct (Rlt_dec x y); [trivial|discriminate]. Qed.

(** In exact arithmetic a valid pixel is a pair of finite numbers with a
    positive error, and its ratio is finite. *)
Lemma valid_pixel_exact (f e : xreal) :
  valid_pixel (A:=exact) f e = true ->
  exists x y, f = Fin x /\ e = Fin y /\ 0 < y /\ div (Arith:=exact) f e = Fin (x / y).
Proof.
  unfold valid_pixel. destruct f as [x| | |], e as [y| | |]; try discriminate.
  cbn [isfinite ltb of_int exact xisfinite xltb andb]. intros H.
  apply Rltb_lt_true in H.
  exists x, y. repeat split; try assumption. cbn [div exact]. apply xdiv_Fin. lra.
Qed.

Lemma valid_ratios (l : list (xreal * xreal)) :
  exists rs,
    map (fun p => div (Arith:=exact) (fst p) (snd p))
        (filter (fun p => valid_pixel (A:=exact) (fst p) (snd p)) l) = map Fin rs /\
    (forall r, In r rs ->
       exists x y, In (Fin x, Fin y) l /\ 0 < y /\ r = x / y) /\
    ((exists f e, In (f, e) l /\ valid_pixel (A:=exact) f e = true) -> rs <> []).
Proof.
  induction l as [|[f e] l (rs & IH & Hrs & Hne)].
  - exists []. split; [reflexivity|]. split; [intros r []|].
    intros (f & e & [] & _).
  - cbn [filter fst snd]. destruct (valid_pixel (A:=exact) f e) eqn:Hv.
    + destruct (valid_pixel_exact f e Hv) as (x & y & -> & -> & Hy & Hdiv).
      exists (x / y :: rs). cbn [map fst snd]. rewrite IH, Hdiv.
      split; [reflexivity|]. split; [|discriminate].
      intros r [<-|Hr].
      * exists x, y. split; [now left|]. split; [exact Hy|reflexivity].
      * destruct (Hrs r Hr) as (x' & y' & Hin & Hy' & Heq).
        exists x', y'. split; [now right|]. split; assumption.
    + exists rs. split; [exact IH|]. split.
      * intros r Hr. destruct (Hrs r Hr) as (x' & y' & Hin & Hy' & Heq).
        exists x', y'. split; [now right|]. split; assumption.
      * intros (f' & e' & [Heq|Hin] & Hv').
        -- injection Heq as <- <-. rewrite Hv in Hv'. discriminate.
        -- apply Hne. now exists f', e'.
Qed.

(** X10.  In exact arithmetic, on a flux and an error of one length with at
    least one valid pixel, [get_snr_estimate] returns a finite number that
    lies between the ratios flux/err of two valid pixels: pixels with a
    non-finite flux or a non-finite or non-positive error have no part in
    it. *)
Theorem get_snr_estimate_between (flux err : list xreal) :
  length flux = length err ->
  (exists f e, In (f, e) (combine flux err) /\ valid_pixel (A:=exact) f e = true) ->
  exists s f1 e1 f2 e2,
    get_snr_estimate (A:=exact) flux (Some err) = Ok (Fin s) /\
    In (Fin f1, Fin e1) (combine flux err) /\ 0 < e1 /\
    In (Fin f2, Fin e2) (combine flux err) /\ 0 < e2 /\
    f1 / e1 <= s <= f2 / e2.
Proof.
  intros Hlen Hvalid.
  assert (Hmed := get_snr_estimate_median exact flux err Hlen Hvalid).
  destruct (valid_ratios (combine flux err)) as (rs & Hmap & Hrs & Hne).
  specialize (Hne Hvalid).
  destruct (np_median_between rs Hne) as (m & a & b & Hm & Ha & Hb & Hab).
  destruct (Hrs a Ha) as (f1 & e1 & Hin1 & He1 & ->).
  destruct (Hrs b Hb) as (f2 & e2 & Hin2 & He2 & ->).
  exists m, f1, e1, f2, e2. split.
  - etransitivity; [exact Hmed|]. f_equal.
    etransitivity; [|exact Hm]. f_equal. exact Hmap.
  - repeat split; try assumption; lra.
Qed.

Lemma get_snr_estimate_between_witness :
  exists s f1 e1 f2 e2,
    get_snr_estimate (A:=exact) [Fin 10; Fin 30] (Some [Fin 1; Fin 2]) = Ok (Fin s) /\
    In (Fin f1, Fin e1) (combine [Fin 10; Fin 30] [Fin 1; Fin 2]) /\ 0 < e1 /\
    In (Fin f2, Fin e2) (combine [Fin 10; Fin 30] [Fin 1; Fin 2]) /\ 0 < e2 /\
    f1 / e1 <= s <= f2 / e2.
Proof.
  apply (get_snr_estimate_between [Fin 10; Fin 30] [Fin 1; Fin 2]).
  - reflexivity.
  - exists (Fin 10), (Fin 1). split; [now left|].
    unfold valid_pixel. cbn [isfinite ltb of_int exact xisfinite xltb andb].
    apply Rltb_true. lra.
Defined.

(** X11.  When the flux and the error differ in length and neither has length
    1, [get_snr_estimate] raises [ValueError]: the two finiteness masks do not
    broadcast. *)
Theorem get_snr_estimate_length_mismatch (A : Arith) (flux err : list num) :
  length flux <> length err -> length flux <> 1%nat -> length err <> 1%nat ->
  get_snr_estimate flux (Some err) = Raise ValueError.
Proof.
  intros Hne Hf He. unfold get_snr_estimate, broadcast2 at 1.
  rewrite !length_map. apply Nat.eqb_neq in Hne. rewrite Hne.
  destruct flux as [|f [|f' flux]], err as [|e [|e' err]]; simpl in *;
    try reflexivity; try congruence.
Qed.

Lemma get_snr_estimate_length_mismatch_witness :
  get_snr_estimate (A:=binary64) [lit 1.0; lit 2.0; lit 3.0] (Some [lit 1.0; lit 1.0])
  = Raise ValueError.
Proof.
  apply (get_snr_estimate_length_mismatch binary64
           [lit 1.0; lit 2.0; lit 3.0] [lit 1.0; lit 1.0]); discriminate.
Defined.

Example target_name_runs :
  target_name [] "HD12345_spectrum" = "HD12345"%string /\
  target_name [] "a_spec_b_1d" = "a_b"%string /\
  target_name [("OBJECT", "Vega")]%string "x_spec" = "Vega"%string.
Proof. repeat split; vm_compute; reflexivity. Qed.

(** ** The metadata of [load_fits_spectrum] *)

Lemma dict_get_set {V : Type} (d : dict V) (k : string) (v : V) (k' : string) :
  dict_get (dict_set d k v) k' = if String.eqb k' k then Some v else dict_get d k'.
Proof.
  induction d as [|[k0 v0] r IH]; simpl; [reflexivity|].
  destruct (String.eqb_spec k k0) as [->|Hne]; simpl.
  - destruct (String.eqb k' k0); reflexivity.
  - rewrite IH. destruct (String.eqb_spec k' k0) as [->|Hne'].
    + destruct (String.eqb_spec k0 k); [congruence|reflexivity].
    + reflexivity.
Qed.

Lemma dict_get_app {V : Type} (a b : dict V) (k : string) :
  dict_get (a ++ b) k =
  match dict_get a k with Some v => Some v | None => dict_get b k end.
Proof.
  induction a as [|[k0 v0] a IH]; simpl; [reflexivity|].
  destruct (String.eqb k k0); [reflexivity|exact IH].
Qed.

(** The loop over the primary header: the last card of a key wins. *)
Lemma primary_loop {V : Type} (skipped : list string) (items : list (string * V))
    (init : dict V) (k : string) :
  dict_get
    (fold_left (fun metadata item =>
                  if negb (in_list (fst item) skipped)
                  then dict_set metadata (fst item) (snd item)
                  else metadata)
               items init) k =
  if in_list k skipped then dict_get init k
  else match last_value items k with
       | Some v => Some v
       | None => dict_get init k
       end.
Proof.
  revert init. induction items as [|[k0 v0] items IH]; intros init.
  - simpl. now destruct (in_list k skipped).
  - cbn [fold_left fst snd]. rewrite IH. unfold last_value. cbn [rev].
    rewrite dict_get_app. cbn [dict_get].
    destruct (in_list k skipped) eqn:Hk.
    + destruct (in_list k0 skipped) eqn:Hk0; cbn [negb]; [reflexivity|].
      rewrite dict_get_set.
      destruct (String.eqb_spec k k0); [congruence|reflexivity].
    + destruct (dict_get (rev items) k); [reflexivity|].
      destruct (in_list k0 skipped) eqn:Hk0; cbn [negb].
      * destruct (String.eqb_spec k k0); [congruence|reflexivity].
      * rewrite dict_get_set. destruct (String.eqb k k0); reflexivity.
Qed.

(** The loop over the extension header: a key that is present is kept, so
    the first card of a key wins. *)
Lemma extension_loop {V : Type} (skipped : list string) (items : list (string * V))
    (init : dict V) (k : string) :
  dict_get
    (fold_left (fun metadata item =>
                  if negb (in_list (fst item) skipped)
                  then
                    if negb (dict_mem metadata (fst item))
                    then dict_set metadata (fst item) (snd item)
                    else metadata
                  else metadata)
               items init) k =
  match dict_get init k with
  | Some v => Some v
  | None => if in_list k skipped then None else first_value items k
  end.
Proof.
  revert init. induction items as [|[k0 v0] items IH]; intros init.
  - simpl. destruct (dict_get init k); [reflexivity|].
    now destruct (in_list k skipped).
  - cbn [fold_left fst snd]. rewrite IH. unfold first_value. cbn [dict_get].
    destruct (in_list k0 skipped) eqn:Hk0; cbn [negb].
    + destruct (dict_get init k); [reflexivity|].
      destruct (in_list k skipped) eqn:Hk; [reflexivity|].
      destruct (String.eqb_spec k k0); [congruence|reflexivity].
    + unfold dict_mem. destruct (dict_get init k0) as [w|] eqn:Hget0; cbn [negb].
      * destruct (dict_get init k) eqn:Hget; [reflexivity|].
        destruct (in_list k skipped); [reflexivity|].
        destruct (String.eqb_spec k k0); [congruence|reflexivity].
      * rewrite dict_get_set.
        destruct (String.eqb_spec k k0) as [->|Hne].
        -- rewrite Hget0, Hk0. reflexivity.
        -- reflexivity.
Qed.

(** X12.  The metadata that [load_fits_spectrum] builds from the two headers:
    the keys COMMENT, HISTORY and the empty key are never present; a key of
    the primary header has the value of its last card there, whatever the
    extension header says; any other key has the value of its first card in
    the extension header, but for TTYPE1, TTYPE2 and TTYPE3, which are not
    taken from it. *)
Theorem header_metadata_lookup {V : Type} (primary extension : list (string * V))
    (k : string) :
  dict_get (header_metadata primary extension) k =
  if in_list k ["COMMENT"; "HISTORY"; ""]%string then None
  else match last_value primary k with
       | Some v => Some v
       | None =>
           if in_list k ["TTYPE1"; "TTYPE2"; "TTYPE3"]%string then None
           else first_value extension k
       end.
Proof.
  unfold header_metadata. cbv zeta. rewrite extension_loop, primary_loop.
  cbn [dict_get]. unfold in_list. cbn [existsb].
  destruct (String.eqb k "COMMENT"); [reflexivity|].
  destruct (String.eqb k "HISTORY"); [reflexivity|].
  destruct (String.eqb k ""); [reflexivity|]. cbn [orb].
  destruct (last_value primary k); reflexivity.
Qed.

(** ** [SpectrumFITS.target_name] *)

Lemma append_empty_r (s : string) : String.append s "" = s.
Proof. induction s as [|c s IH]; simpl; [reflexivity|now rewrite IH]. Qed.

(** Nothing is replaced inside a text without an underscore when the text
    that is looked for starts with one. *)
Lemma replace_from_no_underscore (base old' new t : string) :
  no_underscore base = true ->
  replace_from (String "_" old') new 0 (String.append base t) =
  String.append base (replace_from (String "_" old') new 0 t).
Proof.
  intros H. induction base as [|c base IH]; [reflexivity|].
  cbn [no_underscore] in H. apply andb_prop in H as [Hc Hb].
  cbn [String.append replace_from String.prefix].
  destruct (ascii_dec "_" c) as [<-|_]; [discriminate|].
  now rewrite IH.
Qed.

Lemma replace_from_id (old' new s : string) :
  no_underscore s = true -> replace_from (String "_" old') new 0 s = s.
Proof.
  intros H. rewrite <- (append_empty_r s) at 1.
  rewrite replace_from_no_underscore by exact H. cbn [replace_from].
  apply append_empty_r.
Qed.

Lemma replace_from_suffix (base old' new t r : string) :
  no_underscore base = true ->
  replace_from (String "_" old') new 0 t = r ->
  replace_from (String "_" old') new 0 (String.append base t) = String.append base r.
Proof. intros H <-. now apply replace_from_no_underscore. Qed.

Lemma prefix_String (a b : ascii) (s1 s2 : string) :
  String.prefix (String a s1) (String b s2) = Ascii.eqb a b && String.prefix s1 s2.
Proof.
  cbn [String.prefix]. destruct (ascii_dec a b) as [->|Hne].
  - now rewrite Ascii.eqb_refl.
  - apply Ascii.eqb_neq in Hne. now rewrite Hne.
Qed.

Lemma no_underscore_app (a b : string) :
  no_underscore a = true -> no_underscore b = true ->
  no_underscore (String.append a b) = true.
Proof.
  intros Ha Hb. induction a as [|c a IH]; [exact Hb|].
  cbn [no_underscore String.append] in *. apply andb_prop in Ha as [Hc Ha].
  now rewrite Hc, IH.
Qed.

Lemma prefix_append (s t : string) : String.prefix s (String.append s t) = true.
Proof.
  induction s as [|c s IH]; [now destruct t|].
  cbn [String.append]. rewrite prefix_String, Ascii.eqb_refl. exact IH.
Qed.

Lemma replace_from_skip (old new s t : string) :
  replace_from old new (String.length s) (String.append s t) = replace_from old new 0 t.
Proof. induction s as [|c s IH]; [reflexivity|exact IH]. Qed.

(** An occurrence at the front is replaced, and the search goes on after it. *)
Lemma replace_from_occurrence (c : ascii) (old' new rest : string) :
  replace_from (String c old') new 0 (String.append (String c old') rest) =
  String.append new (replace_from (String c old') new 0 rest).
Proof.
  cbn [String.append replace_from].
  change (String c (String.append old' rest)) with (String.append (String c old') rest).
  rewrite prefix_append. cbn [String.length]. rewrite Nat.sub_succ, Nat.sub_0_r.
  now rewrite replace_from_skip.
Qed.

Ltac replace_suffix :=
  erewrite replace_from_suffix; [|assumption|vm_compute; reflexivity].

(** One replacement that finds nothing at the front of the text after an
    underscore-free text, and nothing in [rest]. *)
Ltac replace_inside rest :=
  rewrite replace_from_no_underscore by assumption;
  cbn [String.append replace_from String.length Nat.sub]; rewrite !prefix_String;
  cbn [Ascii.eqb Bool.eqb andb];
  repeat match goal with H : String.prefix _ rest = false |- _ => rewrite H end;
  repeat rewrite (replace_from_id _ _ rest) by assumption.

(** The replacement that finds [middle] after an underscore-free text. *)
Ltac replace_found base middle rest :=
  rewrite replace_from_no_underscore by assumption;
  match goal with
  | |- context [replace_from ?old ?new 0 ?t] =>
      change (replace_from old new 0 t)
        with (replace_from old new 0 (String.append middle rest))
  end;
  rewrite replace_from_occurrence; cbn [String.append];
  repeat rewrite (replace_from_id _ _ rest) by assumption;
  repeat rewrite (replace_from_id _ _ (String.append base rest))
    by now apply no_underscore_app.

(** X13.  Without an OBJECT entry, a file stem made of an underscore-free
    name and one of the suffixes _spectrum, _spec and _1d (or none) gives the
    name. *)
Theorem target_name_strips_suffix (metadata : dict string) (base suffix : string) :
  dict_mem metadata "OBJECT" = false ->
  no_underscore base = true ->
  In suffix ["_spectrum"; "_spec"; "_1d"; ""]%string ->
  target_name metadata (String.append base suffix) = base.
Proof.
  intros Hobj Hbase Hin. unfold target_name. rewrite Hobj.
  cbn [fold_left]. unfold str_replace.
  destruct Hin as [<-|[<-|[<-|[<-|[]]]]];
    do 3 replace_suffix; apply append_empty_r.
Qed.

Lemma target_name_strips_suffix_witness :
  target_name [("DATE", "2024-01-01")]%string (String.append "HD12345" "_spec")
  = "HD12345"%string.
Proof.
  apply (target_name_strips_suffix [("DATE", "2024-01-01")]%string "HD12345" "_spec").
  - reflexivity.
  - reflexivity.
  - right. left. reflexivity.
Defined.

(** X14.  The three texts are removed wherever they stand, not only at the
    end of the stem: between two underscore-free texts they vanish and the
    two texts are joined.  (For _spec this needs that the second text does
    not go on with trum, which would make the occurrence one of _spectrum.) *)
Theorem target_name_removes_inside (metadata : dict string) (base middle rest : string) :
  dict_mem metadata "OBJECT" = false ->
  no_underscore base = true -> no_underscore rest = true ->
  In middle ["_spectrum"; "_spec"; "_1d"]%string ->
  (middle = "_spec"%string -> String.prefix "trum" rest = false) ->
  target_name metadata (String.append base (String.append middle rest))
  = String.append base rest.
Proof.
  intros Hobj Hbase Hrest Hin Htrum. unfold target_name. rewrite Hobj.
  cbn [fold_left]. unfold str_replace.
  destruct Hin as [<-|[<-|[<-|[]]]].
  - replace_found base "_spectrum"%string rest. reflexivity.
  - specialize (Htrum eq_refl).
    replace_inside rest. replace_found base "_spec"%string rest. reflexivity.
  - do 2 replace_inside rest. replace_found base "_1d"%string rest. reflexivity.
Qed.

Lemma target_name_removes_inside_witness :
  target_name [] (String.append "star" (String.append "_1d" "final")) = "starfinal"%string.
Proof.
  apply (target_name_removes_inside [] "star" "_1d" "final").
  - reflexivity.
  - reflexivity.
  - reflexivity.
  - right. right. left. reflexivity.
  - discriminate.
Defined.

(** ** [analyze_single_spectrum] *)

(** X15.  A spectrum with at most 200 flux values cannot be analysed: the
    scan with window 200 visits no window, and the statistics of the empty
    series raise [ValueError], whatever the wavelengths and the errors. *)
Theorem analyze_single_spectrum_short_flux (A : Arith) (wave flux : list num)
    (err : option (list num)) :
  (len flux <= 200)%Z ->
  analyze_single_spectrum wave flux err = Raise ValueError.
Proof.
  intros Hn. unfold analyze_single_spectrum.
  rewrite calculate_c_index_unfold by lia. cbv zeta.
  rewrite range_items_nil by lia. reflexivity.
Qed.

Lemma analyze_single_spectrum_short_flux_witness :
  analyze_single_spectrum (A:=binary64) [lit 1.0; lit 2.0] (repeat (lit 1.0) 200) None
  = Raise ValueError.
Proof.
  apply (analyze_single_spectrum_short_flux binary64 [lit 1.0; lit 2.0]
           (repeat (lit 1.0) 200) None).
  vm_compute. discriminate.
Defined.

(** The series of a constant finite sequence longer than the window, in exact
    arithmetic: one or more samples, all 5/6. *)
Lemma flat_series (c : R) (n : nat) (window step : Z) (min_valid_fraction : R) :
  (10 <= window)%Z -> (1 <= step)%Z -> min_valid_fraction <= 1 ->
  (window < Z.of_nat n)%Z -> 1 / 10000000000 < Rabs c ->
  exists ps k,
    calculate_c_index (A:=exact) (repeat (Fin c) n) window step (Fin min_valid_fraction)
    = Ok (ps, map Fin (repeat (5 / 6) (S k))).
Proof.
  intros Hw Hs Hf Hn Hc. rewrite <- eps_value in Hc.
  destruct (constant_input_values c n window step (Fin min_valid_fraction))
    as (ps & cs & Hcalc & Hall); [lia|].
  assert (Hne : cs <> []).
  { rewrite calculate_c_index_unfold in Hcalc by lia. cbv zeta in Hcalc.
    injection Hcalc as _ <-. intros Hnil. apply map_eq_nil in Hnil.
    assert (Hin : In 0%Z (filter (accepted (A:=exact) (repeat (Fin c) n) window
                                    (Fin min_valid_fraction))
                            (range_items 0 (len (repeat (Fin c) n) - window) step))).
    { apply filter_In. split.
      - apply in_range_items; [lia|]. exists 0%Z. unfold len. rewrite repeat_length. lia.
      - rewrite <- map_repeat.
        apply finite_data_accepted; rewrite ?repeat_length; [lia|exact Hf|lia|lia]. }
    rewrite Hnil in Hin. exact Hin. }
  exists ps, (pred (length cs)). rewrite Hcalc. do 2 f_equal.
  rewrite map_repeat.
  replace (S (pred (length cs))) with (length cs)
    by (destruct cs; [contradiction|reflexivity]).
  apply all_equal_repeat. intros y Hy. rewrite Forall_forall in Hall.
  rewrite (Hall y Hy). destruct (Rlt_dec eps (Rabs c)) as [_|Hn']; [|contradiction].
  f_equal. lra.
Qed.

(** The statistics of one or more equal finite samples. *)
Lemma constant_series_statistics (v : R) (k : nat) :
  0 < v ->
  exists s,
    c_index_statistics (A:=exact) (map Fin (repeat v (S k))) = Ok s /\
    mean s = Fin v /\ std s = Fin 0 /\ cv s = Fin 0.
Proof.
  intros Hv. unfold c_index_statistics. cbv zeta.
  rewrite np_mean_Fin, np_std_Fin by (apply repeat_nonempty; lia).
  rewrite arithmetic_mean_repeat, population_std_repeat by lia.
  cbn [repeat map np_min np_max bind].
  eexists. split; [reflexivity|]. cbn [mean std cv].
  repeat split.
  cbn [ltb of_int div exact xltb]. rewrite Rltb_true by exact Hv.
  rewrite xdiv_Fin by lra. f_equal. field. lra.
Qed.

(** On arrays of one length [get_snr_estimate] raises nothing. *)
Lemma get_snr_estimate_returns (A : Arith) (flux : list num) (err : option (list num)) :
  (forall e, err = Some e -> length e = length flux) ->
  exists s, get_snr_estimate flux err = Ok s.
Proof.
  intros Hlen. destruct err as [e|]; [|eexists; reflexivity].
  specialize (Hlen e eq_refl). symmetry in Hlen.
  unfold get_snr_estimate.
  assert (Hmask := valid_mask A flux e Hlen).
  destruct (broadcast2 andb (map isfinite flux) (map isfinite e)) as [fb|ex];
    cbn [bind] in *; [|discriminate].
  rewrite Hmask. cbn [bind].
  destruct (negb _); [eexists; reflexivity|].
  destruct (mask_index_both (fun p => valid_pixel (fst p) (snd p)) flux e Hlen)
    as [Hf He].
  rewrite Hf, He. cbn [bind].
  rewrite broadcast2_same by now rewrite !length_map.
  cbn [bind]. eexists; reflexivity.
Qed.

(** X16.  A flat spectrum is analysed and rated at least Good.  For more
    than 200 flux values, all equal to one value above 1e-10 in absolute
    value, with some wavelengths and with no error array or one as long as
    the flux, the analysis returns, the mean C-Index is above 0.80, the
    coefficient of variation is below 0.10, and the quality is Good or
    Excellent.  The theorem is stated in exact arithmetic, which leaves
    overflow out; there the quality is Good. *)
Theorem analyze_single_spectrum_flat (c : R) (n : nat) (wave : list xreal)
    (err : option (list xreal)) :
  (200 < n)%nat -> 1 / 10000000000 < Rabs c -> wave <> [] ->
  (forall e, err = Some e -> length e = n) ->
  exists r,
    analyze_single_spectrum (A:=exact) wave (repeat (Fin c) n) err = Ok r /\
    ltb (Arith:=exact) (lit 0.80) (mean (result_stats r)) = true /\
    ltb (Arith:=exact) (cv (result_stats r)) (lit 0.10) = true /\
    (result_quality r = "Good"%string \/ result_quality r = "Excellent"%string).
Proof.
  intros Hn Hc Hwave Herr. unfold analyze_single_spectrum.
  destruct (flat_series c n 200 100 (Q2R 0.8)) as (ps & k & Hcalc);
    [lia | lia | rewrite Q2R_eight_tenths; lra | lia | exact Hc |].
  cbn [lit exact]. rewrite Hcalc. cbn [bind snd fst].
  destruct (constant_series_statistics (5 / 6) k) as (s & Hs & Hmean & Hstd & Hcv);
    [lra|].
  rewrite Hs. cbn [bind].
  destruct (get_snr_estimate_returns exact (repeat (Fin c) n) err) as (v & Hv).
  { intros e He. rewrite repeat_length. now apply Herr. }
  rewrite Hv. cbn [bind].
  destruct wave as [|w wave]; [contradiction|]. cbn [np_min np_max bind].
  eexists. split; [reflexivity|].
  cbn [result_stats result_quality]. rewrite Hmean, Hcv.
  split; [|split].
  - cbn [ltb lit exact xltb]. unfold Q2R. cbn [Qnum Qden]. apply Rltb_true. lra.
  - cbn [ltb lit exact xltb]. unfold Q2R. cbn [Qnum Qden]. apply Rltb_true. lra.
  - left. unfold coherence_quality_score.
    cbn [ltb lit exact xltb]. unfold Q2R. cbn [Qnum Qden].
    rewrite (Rltb_false _ (5 / 6)) by lra.
    rewrite (Rltb_true _ (5 / 6)) by lra.
    rewrite !(Rltb_true 0) by lra. reflexivity.
Qed.

Lemma analyze_single_spectrum_flat_witness :
  exists r,
    analyze_single_spectrum (A:=exact) [Fin 1; Fin 2] (repeat (Fin 1) 300) None = Ok r /\
    ltb (Arith:=exact) (lit 0.80) (mean (result_stats r)) = true /\
    ltb (Arith:=exact) (cv (result_stats r)) (lit 0.10) = true /\
    (result_quality r = "Good"%string \/ result_quality r = "Excellent"%string).
Proof.
  apply (analyze_single_spectrum_flat 1 300 [Fin 1; Fin 2] None).
  - lia.
  - rewrite Rabs_R1. lra.
  - discriminate.
  - discriminate.
Defined.

(** ** [analyze_multiple_spectra] *)

Section BatchFacts.

Context {A : Arith}.

Let step (state : result (dict analysis)) (spectrum : SpectrumFITS) :=
  results <- state ;;
  entry <- analyze_spectrum spectrum ;;
  Ok (dict_set results (target_name (metadata spectrum) (filepath_stem spectrum)) entry).

(** Once a spectrum has raised, the loop is left. *)
Lemma batch_raised (spectra : list SpectrumFITS) (e : exn) :
  fold_left step spectra (Raise e) = Raise e.
Proof. induction spectra as [|s spectra IH]; [reflexivity|exact IH]. Qed.

Lemma batch_raises (spectra : list SpectrumFITS) (s : SpectrumFITS) (e : exn)
    (state : result (dict analysis)) :
  In s spectra -> analyze_spectrum s = Raise e ->
  exists e', fold_left step spectra state = Raise e'.
Proof.
  revert state. induction spectra as [|s0 spectra IH]; intros state Hin Hs; [destruct Hin|].
  cbn [fold_left]. destruct state as [results|e0].
  - destruct Hin as [->|Hin].
    + unfold step at 2. cbn [bind]. rewrite Hs. cbn [bind].
      exists e. apply batch_raised.
    + now apply IH.
  - exists e0. apply batch_raised.
Qed.

(** The entries of the loop, in exact terms: one per spectrum, in order. *)
Lemma batch_lookup (spectra : list SpectrumFITS) (init results : dict analysis)
    (name : string) :
  fold_left step spectra (Ok init) = Ok results ->
  option_map Ok (dict_get results name) =
  match last_value
          (map (fun s => (target_name (metadata s) (filepath_stem s), analyze_spectrum s))
               spectra) name with
  | Some entry => Some entry
  | None => option_map Ok (dict_get init name)
  end.
Proof.
  revert init. induction spectra as [|s spectra IH]; intros init H.
  - cbn in H. injection H as <-. reflexivity.
  - cbn [fold_left] in H. unfold step at 2 in H. cbn [bind] in H.
    destruct (analyze_spectrum s) as [entry|e] eqn:Hs; cbn [bind] in H.
    + rewrite (IH _ H). unfold last_value. cbn [map rev].
      rewrite dict_get_app. cbn [dict_get].
      destruct (dict_get (rev _) name); [reflexivity|].
      rewrite dict_get_set, Hs.
      destruct (String.eqb name _); reflexivity.
    + rewrite batch_raised in H. discriminate.
Qed.

End BatchFacts.

(** X17.  One spectrum with at most 200 flux values makes the analysis of
    the whole list raise: no result is returned for the other spectra. *)
Theorem analyze_multiple_spectra_short_flux (A : Arith) (spectra : list SpectrumFITS)
    (s : SpectrumFITS) :
  In s spectra -> (len (flux s) <= 200)%Z ->
  exists e, analyze_multiple_spectra spectra = Raise e.
Proof.
  intros Hin Hn.
  assert (Hs : analyze_spectrum s = Raise ValueError).
  { unfold analyze_spectrum. rewrite calculate_c_index_unfold by lia. cbv zeta.
    rewrite range_items_nil by lia. reflexivity. }
  unfold analyze_multiple_spectra. destruct spectra as [|s0 spectra]; [destruct Hin|].
  destruct (batch_raises (s0 :: spectra) s ValueError (Ok []) Hin Hs) as (e & He).
  exists e. etransitivity; [|exact (f_equal (fun r => x <- r ;; Ok (Some x)) He)].
  reflexivity.
Qed.

Lemma analyze_multiple_spectra_short_flux_witness :
  exists e,
    analyze_multiple_spectra (A:=binary64)
      [ {| filepath_stem := "a_spec"; wave := []; flux := repeat (lit 1.0) 250;
           err := None; metadata := [] |};
        {| filepath_stem := "b_spec"; wave := []; flux := repeat (lit 1.0) 200;
           err := None; metadata := [] |} ]
    = Raise e.
Proof.
  apply (analyze_multiple_spectra_short_flux binary64 _
           {| filepath_stem := "b_spec"; wave := []; flux := repeat (lit 1.0) 200;
              err := None; metadata := [] |}).
  - right. left. reflexivity.
  - vm_compute. discriminate.
Defined.

(** X18.  The results are keyed by target name, so of several spectra with
    one target name only the last is kept: when the analysis returns, the
    entry under a name is the analysis of the last spectrum of that name, and
    a name of no spectrum has no entry. *)
Theorem analyze_multiple_spectra_last_wins (A : Arith) (spectra : list SpectrumFITS)
    (results : dict analysis) (name : string) :
  analyze_multiple_spectra spectra = Ok (Some results) ->
  option_map Ok (dict_get results name) =
  last_value
    (map (fun s => (target_name (metadata s) (filepath_stem s), analyze_spectrum s))
         spectra) name.
Proof.
  intros H. unfold analyze_multiple_spectra in H.
  destruct spectra as [|s0 spectra]; [discriminate|].
  match type of H with
  | context [fold_left ?f ?l ?i] =>
      destruct (fold_left f l i) as [r|e] eqn:Hfold
  end; cbn [bind] in H; [|discriminate].
  injection H as <-.
  rewrite (batch_lookup (s0 :: spectra) [] r name Hfold).
  now destruct (last_value _ name).
Qed.

(** In exact arithmetic the loop body returns on a flat spectrum. *)
Lemma analyze_spectrum_flat (s : SpectrumFITS (A:=exact)) (c : R) (n : nat) :
  flux s = repeat (Fin c) n -> (200 < n)%nat -> 1 / 10000000000 < Rabs c ->
  (forall e, err s = Some e -> length e = n) ->
  exists r, analyze_spectrum s = Ok r /\ result_quality r = "Good"%string.
Proof.
  intros Hflux Hn Hc Herr. unfold analyze_spectrum. rewrite Hflux.
  destruct (flat_series c n 200 100 (Q2R 0.8)) as (ps & k & Hcalc);
    [lia | lia | rewrite Q2R_eight_tenths; lra | lia | exact Hc |].
  cbn [lit exact]. rewrite Hcalc. cbn [bind snd fst].
  destruct (constant_series_statistics (5 / 6) k) as (st & Hs & Hmean & Hstd & Hcv);
    [lra|].
  rewrite Hs. cbn [bind].
  destruct (get_snr_estimate_returns exact (repeat (Fin c) n) (err s)) as (v & Hv).
  { intros e He. rewrite repeat_length. now apply Herr. }
  rewrite Hv. cbn [bind].
  eexists. split; [reflexivity|]. cbn [result_quality].
  rewrite Hmean, Hcv. unfold coherence_quality_score.
  cbn [ltb lit exact xltb]. unfold Q2R. cbn [Qnum Qden].
  rewrite (Rltb_false _ (5 / 6)) by lra.
  rewrite (Rltb_true _ (5 / 6)) by lra.
  rewrite !(Rltb_true 0) by lra. reflexivity.
Qed.

Lemma analyze_multiple_spectra_last_wins_witness :
  exists results,
    analyze_multiple_spectra (A:=exact)
      [ {| filepath_stem := "night1_spec"; wave := []; flux := repeat (Fin 1) 201;
           err := None; metadata := [("OBJECT", "Vega")]%string |};
        {| filepath_stem := "night2_spec"; wave := []; flux := repeat (Fin 2) 201;
           err := None; metadata := [("OBJECT", "Vega")]%string |} ]
    = Ok (Some results) /\
    length results = 1%nat /\
    option_map Ok (dict_get results "Vega") =
    Some (analyze_spectrum (A:=exact)
            {| filepath_stem := "night2_spec"; wave := []; flux := repeat (Fin 2) 201;
               err := None; metadata := [("OBJECT", "Vega")]%string |}).
Proof.
  destruct (analyze_spectrum_flat
              (@Build_SpectrumFITS exact "night1_spec" [] (repeat (Fin 1) 201) None
                 [("OBJECT", "Vega")]%string) 1 201)
    as (r1 & H1 & _);
    [reflexivity | lia | rewrite Rabs_R1; lra | discriminate |].
  destruct (analyze_spectrum_flat
              (@Build_SpectrumFITS exact "night2_spec" [] (repeat (Fin 2) 201) None
                 [("OBJECT", "Vega")]%string) 2 201)
    as (r2 & H2 & _);
    [reflexivity | lia | rewrite Rabs_pos_eq; lra | discriminate |].
  assert (Hrun :
    analyze_multiple_spectra (A:=exact)
      [ {| filepath_stem := "night1_spec"; wave := []; flux := repeat (Fin 1) 201;
           err := None; metadata := [("OBJECT", "Vega")]%string |};
        {| filepath_stem := "night2_spec"; wave := []; flux := repeat (Fin 2) 201;
           err := None; metadata := [("OBJECT", "Vega")]%string |} ]
    = Ok (Some [("Vega"%string, r2)])).
  { unfold analyze_multiple_spectra. cbn [fold_left bind].
    rewrite H1. cbn [bind]. rewrite H2. reflexivity. }
  exists [("Vega"%string, r2)].
  split; [exact Hrun|]. split; [reflexivity|].
  etransitivity; [apply (analyze_multiple_spectra_last_wins exact _ _ "Vega" Hrun)|].
  reflexivity.
Defined.

(** ** The range of the C-Index *)

(** The C-Index of a window of at least two finite values is positive and at
    most 1: Smoothness and Stability are positive. *)
Lemma c_index_of_positive (rs : list R) :
  (2 <= length rs)%nat ->
  exists r, c_index_of (A:=exact) (map Fin rs) = Fin r /\ 0 < r <= 1.
Proof.
  intros Hlen. unfold c_index_of.
  assert (Hne : rs <> []) by (destruct rs; [simpl in Hlen; lia|discriminate]).
  rewrite smoothness_Fin, stability_Fin by assumption.
  destruct (consistency_range (map Fin rs)) as (c & -> & Hc).
  assert (Hs := smoothness_value_range rs). assert (Ht := stability_value_range rs).
  cbn [add div lit exact xadd]. rewrite Q2R_three, xdiv_Fin by lra.
  eexists. split; [reflexivity|]. lra.
Qed.

(** X19.  Where nothing overflows, every value of the series that
    [calculate_c_index] returns is a number greater than 0 and at most 1, for
    every data, the non-finite entries included: Smoothness and Stability
    are positive and at most 1, and Consistency is in [[0, 1]].  The theorem
    is stated in exact arithmetic, which leaves overflow out. *)
Theorem c_indices_positive_at_most_one (data : list xreal) (window step : Z)
    (min_valid_fraction : xreal) :
  step <> 0%Z ->
  exists ps cs,
    calculate_c_index (A:=exact) data window step min_valid_fraction = Ok (ps, cs) /\
    Forall (fun v => exists r, v = Fin r /\ 0 < r <= 1) cs.
Proof.
  intros Hstep. rewrite calculate_c_index_unfold by exact Hstep. cbv zeta.
  eexists. eexists. split; [reflexivity|].
  apply Forall_map, Forall_forall. intros i Hi.
  apply filter_In in Hi as [_ Hacc]. apply accepted_ten in Hacc.
  destruct (finite_segment_Fin data window i) as (rs & Hrs).
  rewrite Hrs in *. apply c_index_of_positive.
  unfold len in Hacc. rewrite length_map in Hacc. lia.
Qed.

Lemma c_indices_positive_at_most_one_witness :
  exists ps cs,
    calculate_c_index (A:=exact)
      ([NaN; PInf] ++ map Fin [1; 2; 4; 8; 16; 32; 64; 128; 256; 512; 1024; 2048])
      10 1 (Fin (8 / 10)) = Ok (ps, cs) /\
    Forall (fun v => exists r, v = Fin r /\ 0 < r <= 1) cs.
Proof.
  apply (c_indices_positive_at_most_one
           ([NaN; PInf] ++ map Fin [1; 2; 4; 8; 16; 32; 64; 128; 256; 512; 1024; 2048])
           10 1 (Fin (8 / 10))).
  discriminate.
Defined.
